(** * Polskie Radio extractor family: a shallow embedding

    This development embeds [yt_dlp/extractor/polskieradio.py] and states
    the properties of its pagination, dispatch, de-duplication and lookup
    logic as theorems.  [yt_dlp/extractor/engadget.py] and the handlers of
    the two transcription servers, [server.py] and [WHISPER/server.py],
    are embedded after it.

    Conventions of the embedding.
    - Decoded JSON documents and the other Python values the extractors
      handle are terms of [value]; JSON numbers are integers, an object is
      the association list of its members in document order.
    - The info dicts an extractor builds ([{'id': ..., 'url': ...}]) are
      finite maps [gmap string value]; the [media_urls] set is a
      [gset string].
    - A Python exception is an [Err] result; generators are run to a trace
      of [event]s (API fetches and yielded entries) with an [outcome].
    - The unbounded [itertools.count] loops take a fuel argument; the
      theorems show that enough fuel gives the result.
    - URLs are strings over the 8-bit alphabet of [ascii]; the class [\d]
      of the URL patterns is [0-9]. *)

From Stdlib Require Import ZArith Ascii String DecimalString.
From stdpp Require Import gmap strings list fin_maps.

Set Warnings "-register-all".

Local Open Scope string_scope.
Local Open Scope list_scope.
Local Open Scope Z_scope.

(** ** Python values *)

Module Py.

Inductive value : Type :=
| VNone
| VBool (b : bool)
| VInt (n : Z)
| VStr (s : string)
| VList (l : list value)
| VDict (d : list (string * value)).

(** Exceptions. [ExtractorError] is raised by the extractor code itself,
    [HelperError] stands for anything raised inside a helper of the
    framework or by the network. *)
Inductive exn : Type :=
| KeyError (k : string)
| IndexError
| TypeError
| AttributeError
| ExtractorError (msg : string)
| HelperError.


Inductive result (A : Type) : Type :=
| Ok (a : A)
| Err (e : exn).
Arguments Ok {A} a.
Arguments Err {A} e.

Definition bind {A B} (r : result A) (f : A → result B) : result B :=
  match r with
  | Ok a => f a
  | Err e => Err e
  end.

(** A helper that may raise: [None] is its exception. *)
Definition helper {A} (o : option A) : result A :=
  match o with
  | Some a => Ok a
  | None => Err HelperError
  end.

(** [bool(v)] *)
Definition truthy (v : value) : bool :=
  match v with
  | VNone => false
  | VBool b => b
  | VInt n => negb (n =? 0)
  | VStr s => negb (String.eqb s "")
  | VList l => match l with [] => false | _ => true end
  | VDict d => match d with [] => false | _ => true end
  end.

(** [a or b] *)
Definition py_or (a b : value) : value := if truthy a then a else b.

Fixpoint assoc (k : string) (d : list (string * value)) : option value :=
  match d with
  | [] => None
  | (k', v) :: d' => if String.eqb k k' then Some v else assoc k d'
  end.

(** [d.get(k)] on a dict *)
Definition dict_get (d : list (string * value)) (k : string) : value :=
  match assoc k d with
  | Some v => v
  | None => VNone
  end.

(** [v.get(k)]: only dicts have the method *)
Definition get (v : value) (k : string) : result value :=
  match v with
  | VDict d => Ok (dict_get d k)
  | _ => Err AttributeError
  end.

(** [v[k]] with a string key *)
Definition subscript (v : value) (k : string) : result value :=
  match v with
  | VDict d =>
      match assoc k d with
      | Some x => Ok x
      | None => Err (KeyError k)
      end
  | _ => Err TypeError
  end.

(** [v[0]] *)
Definition first_item (v : value) : result value :=
  match v with
  | VList (x :: _) => Ok x
  | VStr (String c _) => Ok (VStr (String c EmptyString))
  | VList [] | VStr EmptyString => Err IndexError
  | VDict _ => Err (KeyError "0")
  | _ => Err TypeError
  end.

(** [for x in v] *)
Definition iter (v : value) : result (list value) :=
  match v with
  | VList l => Ok l
  | VDict d => Ok (map (λ kv, VStr (fst kv)) d)
  | VStr s =>
      Ok ((fix chars (s : string) : list value :=
             match s with
             | EmptyString => []
             | String c s' => VStr (String c EmptyString) :: chars s'
             end) s)
  | _ => Err TypeError
  end.

(** [a == b]; [True == 1] as in Python, dicts compared member-wise. *)
Fixpoint py_eq (a b : value) {struct a} : bool :=
  match a, b with
  | VNone, VNone => true
  | VBool x, VBool y => Bool.eqb x y
  | VBool x, VInt n | VInt n, VBool x => n =? (if x then 1 else 0)
  | VInt n, VInt m => n =? m
  | VStr s, VStr t => String.eqb s t
  | VList l, VList m =>
      (fix go (l m : list value) {struct l} : bool :=
         match l, m with
         | [], [] => true
         | x :: l', y :: m' => py_eq x y && go l' m'
         | _, _ => false
         end) l m
  | VDict d, VDict e =>
      (List.length d =? List.length e)%nat &&
      (fix go (d : list (string * value)) {struct d} : bool :=
         match d with
         | [] => true
         | (k, v) :: d' =>
             match assoc k e with
             | Some w => py_eq v w
             | None => false
             end && go d'
         end) d
  | _, _ => false
  end.

(** [next((x for x in l if p(x)), None)] where [p] may raise *)
Fixpoint next_where (p : value → result bool) (l : list value)
  : result (option value) :=
  match l with
  | [] => Ok None
  | x :: l' =>
      match p x with
      | Err e => Err e
      | Ok true => Ok (Some x)
      | Ok false => next_where p l'
      end
  end.

Definition has_key (v : value) (k : string) : Prop :=
  ∃ d x, v = VDict d ∧ assoc k d = Some x.

End Py.
Export Py.

Notation "'let*' x ':=' r 'in' k" := (bind r (λ x, k))
  (at level 10, x name, r at level 100, k at level 200, only parsing).

(** ** URL patterns

    The [_VALID_URL] patterns use literals, character classes, greedy
    [+] on a class, greedy [?] and one named group.  [re_match] is a
    backtracking matcher with Python's priorities: a greedy operator tries
    the longest alternative first and gives characters back one by one. *)

Module Re.

Inductive regex : Type :=
| Lit (s : string)
| Class (p : ascii → bool)
| Plus (p : ascii → bool)
| Opt (r : regex)
| Seq (r1 r2 : regex)
| Group (name : string) (r : regex).

Definition captures := gmap string string.

Fixpoint strip_prefix (p s : string) : option string :=
  match p, s with
  | EmptyString, _ => Some s
  | String a p', String b s' =>
      if Ascii.eqb a b then strip_prefix p' s' else None
  | String _ _, EmptyString => None
  end.

Fixpoint take (n : nat) (s : string) : string :=
  match n, s with
  | S n', String c s' => String c (take n' s')
  | _, _ => EmptyString
  end.

(** [p*] then the continuation, longest first *)
Fixpoint star_then {A} (p : ascii → bool) (s : string)
    (k : string → option A) : option A :=
  match s with
  | String c s' =>
      if p c then
        match star_then p s' k with
        | Some x => Some x
        | None => k s
        end
      else k s
  | EmptyString => k s
  end.

Fixpoint exec (r : regex) (s : string) (caps : captures)
    (k : string → captures → option captures) : option captures :=
  match r with
  | Lit l =>
      match strip_prefix l s with
      | Some rest => k rest caps
      | None => None
      end
  | Class p =>
      match s with
      | String c rest => if p c then k rest caps else None
      | EmptyString => None
      end
  | Plus p =>
      match s with
      | String c rest =>
          if p c then star_then p rest (λ rest', k rest' caps) else None
      | EmptyString => None
      end
  | Opt r1 =>
      match exec r1 s caps k with
      | Some x => Some x
      | None => k s caps
      end
  | Seq r1 r2 => exec r1 s caps (λ rest caps', exec r2 rest caps' k)
  | Group name r1 =>
      exec r1 s caps (λ rest caps',
        k rest (<[name := take (String.length s - String.length rest) s]> caps'))
  end.

(** [re.match(r, s)]: anchored at the start, free at the end *)
Definition re_match (r : regex) (s : string) : option captures :=
  exec r s ∅ (λ _ caps, Some caps).

Fixpoint seq_of (rs : list regex) : regex :=
  match rs with
  | [] => Lit ""
  | [r] => r
  | r :: rs' => Seq r (seq_of rs')
  end.

Definition digit (c : ascii) : bool :=
  let n := nat_of_ascii c in (48 <=? n)%nat && (n <=? 57)%nat.
Definition not_slash (c : ascii) : bool := negb (Ascii.eqb c "/").
Definition one_of (cs : string) (c : ascii) : bool :=
  (fix mem (cs : string) : bool :=
     match cs with
     | EmptyString => false
     | String a cs' => Ascii.eqb a c || mem cs'
     end) cs.

End Re.
Export Re.

(** ** The handlers and their URL patterns *)

Inductive handler : Type :=
| PolskieRadioLegacyIE
| PolskieRadioIE
| PolskieRadioAuditionIE
| PolskieRadioCategoryIE
| PolskieRadioPlayerIE
| PolskieRadioPodcastListIE
| PolskieRadioPodcastIE
| PolskieRadioRadioKierowcowIE.

#[global] Instance handler_eq_dec : EqDecision handler.
Proof. solve_decision. Defined.

(** [ie_key()]: the class name without its [IE] suffix *)
Definition ie_key (h : handler) : string :=
  match h with
  | PolskieRadioLegacyIE => "PolskieRadioLegacy"
  | PolskieRadioIE => "PolskieRadio"
  | PolskieRadioAuditionIE => "PolskieRadioAudition"
  | PolskieRadioCategoryIE => "PolskieRadioCategory"
  | PolskieRadioPlayerIE => "PolskieRadioPlayer"
  | PolskieRadioPodcastListIE => "PolskieRadioPodcastList"
  | PolskieRadioPodcastIE => "PolskieRadioPodcast"
  | PolskieRadioRadioKierowcowIE => "PolskieRadioRadioKierowcow"
  end.

Definition hex_lower (c : ascii) : bool := one_of "abcdef" c || digit c.

Fixpoint rep (n : nat) (r : regex) : regex :=
  match n with
  | O => Lit ""
  | S n' => Seq r (rep n' r)
  end.

Definition _VALID_URL (h : handler) : regex :=
  match h with
  | PolskieRadioLegacyIE =>
      (* https?://(?:www\.)?polskieradio(?:24)?\.pl/\d+/\d+/[Aa]rtykul/(?P<id>\d+) *)
      seq_of [Lit "http"; Opt (Lit "s"); Lit "://"; Opt (Lit "www.");
              Lit "polskieradio"; Opt (Lit "24"); Lit ".pl/"; Plus digit;
              Lit "/"; Plus digit; Lit "/"; Class (one_of "Aa");
              Lit "rtykul/"; Group "id" (Plus digit)]
  | PolskieRadioIE =>
      (* https?://(?:[^/]+\.)?polskieradio(?:24)?\.pl/artykul/(?P<id>\d+) *)
      seq_of [Lit "http"; Opt (Lit "s"); Lit "://";
              Opt (Seq (Plus not_slash) (Lit ".")); Lit "polskieradio";
              Opt (Lit "24"); Lit ".pl/artykul/"; Group "id" (Plus digit)]
  | PolskieRadioAuditionIE =>
      (* https?://(?:[^/]+\.)?polskieradio\.pl/audycj[ae]/(?P<id>\d+) *)
      seq_of [Lit "http"; Opt (Lit "s"); Lit "://";
              Opt (Seq (Plus not_slash) (Lit ".")); Lit "polskieradio.pl/audycj";
              Class (one_of "ae"); Lit "/"; Group "id" (Plus digit)]
  | PolskieRadioCategoryIE =>
      (* https?://(?:www\.)?polskieradio\.pl/\d+(?:,[^/]+)?/(?P<id>\d+) *)
      seq_of [Lit "http"; Opt (Lit "s"); Lit "://"; Opt (Lit "www.");
              Lit "polskieradio.pl/"; Plus digit;
              Opt (Seq (Lit ",") (Plus not_slash)); Lit "/";
              Group "id" (Plus digit)]
  | PolskieRadioPlayerIE =>
      (* https?://player\.polskieradio\.pl/anteny/(?P<id>[^/]+) *)
      seq_of [Lit "http"; Opt (Lit "s"); Lit "://player.polskieradio.pl/anteny/";
              Group "id" (Plus not_slash)]
  | PolskieRadioPodcastListIE =>
      (* https?://podcasty\.polskieradio\.pl/podcast/(?P<id>\d+) *)
      seq_of [Lit "http"; Opt (Lit "s");
              Lit "://podcasty.polskieradio.pl/podcast/"; Group "id" (Plus digit)]
  | PolskieRadioPodcastIE =>
      (* https?://podcasty\.polskieradio\.pl/track/(?P<id>[a-f\d]{8}(?:-[a-f\d]{4}){4}[a-f\d]{8}) *)
      seq_of [Lit "http"; Opt (Lit "s");
              Lit "://podcasty.polskieradio.pl/track/";
              Group "id" (seq_of [rep 8 (Class hex_lower);
                                  rep 4 (Seq (Lit "-") (rep 4 (Class hex_lower)));
                                  rep 8 (Class hex_lower)])]
  | PolskieRadioRadioKierowcowIE =>
      (* https?://(?:www\.)?radiokierowcow\.pl/artykul/(?P<id>[0-9]+) *)
      seq_of [Lit "http"; Opt (Lit "s"); Lit "://"; Opt (Lit "www.");
              Lit "radiokierowcow.pl/artykul/"; Group "id" (Plus digit)]
  end.

(** Modelled from the spec: [InfoExtractor.suitable] and [_match_id] belong
    to the extractor base class, which is not among the sources.  A handler
    without an override accepts a URL exactly when its pattern matches, and
    the resolution id is the pattern's named capture [id]. *)
Definition pattern_suitable (h : handler) (url : string) : bool :=
  match re_match (_VALID_URL h) url with
  | Some _ => true
  | None => false
  end.

Definition _match_id (h : handler) (url : string) : result string :=
  match re_match (_VALID_URL h) url with
  | Some caps =>
      match caps !! "id" with
      | Some id => Ok id
      | None => Err HelperError
      end
  | None => Err AttributeError
  end.

(** [suitable]: only [PolskieRadioCategoryIE] overrides it,
    [return False if PolskieRadioLegacyIE.suitable(url) else super().suitable(url)]. *)
Definition suitable (h : handler) (url : string) : bool :=
  match h with
  | PolskieRadioCategoryIE =>
      if pattern_suitable PolskieRadioLegacyIE url then false
      else pattern_suitable PolskieRadioCategoryIE url
  | _ => pattern_suitable h url
  end.


(** ** The framework the extractors call into

    The extractor base class, [yt_dlp.utils], Python's [re] on page
    bodies, and the network are outside the sources; the extractors are
    embedded over an arbitrary implementation of them.  A field of type
    [option] is a call that may raise ([None]); the searches with
    [default=None] or [fatal=False] return a [value] that may be [VNone].
    [traverse_obj obj paths get_all] takes the alternative paths of the
    call, each a list of keys ([KAny] is a branching tuple, [KNone] the
    key [None]). *)

Inductive key : Type :=
| K (name : string)
| KNone
| KAny (alternatives : list key).

Class Framework : Type := {
  (* yt_dlp.utils and compat *)
  traverse_obj : value → list (list key) → bool → value;
  compat_str : value → string;
  int_or_none : value → value;
  parse_iso8601 : value → value;
  unified_timestamp : value → value;
  url_or_none : value → value;
  strip_or_none : value → value;
  determine_ext : value → value;
  unescapeHTML : string → string;
  compat_urllib_parse_unquote : string → string;
  js_to_json : string → string;
  extract_attributes : string → value;
  urljoin : string → string → string;
  (* InfoExtractor *)
  _proto_relative_url : string → string;
  _parse_json : string → option value;
  _search_nextjs_data : string → option value;
  _og_search_title : string → option string;
  _og_search_thumbnail : string → value;
  _og_search_description : string → value;
  _extract_m3u8_formats : string → option (list value);
  _extract_mpd_formats : string → option (list value);
  _extract_ism_formats : string → option (list value);
  (* the regular-expression searches of the extractors on page bodies *)
  findall_data_media : string → list string;
  search_this_article : string → value;
  search_datetime2 : string → value;
  search_audition_record_url : string → option string;
  search_entry_id : string → option string;
  findall_article_links : string → list (string * string);
  search_next_link : string → option string;
  search_category_title : string → value;
  search_channel_list : string → option string;
  (* str.replace('\xa0', ' ') and str.strip() *)
  replace_nbsp : string → string;
  strip : string → string;
  (* the network *)
  _download_webpage : string → option string;
  _download_webpage_handle : string → option (string * string);
  _download_json : string → list (string * value) → option value;
}.

(** ** Generators as traces *)

Inductive event : Type :=
| Fetch (url : string) (query : list (string * value))
| Yield (entry : gmap string value).

Inductive outcome : Type :=
| Returned
| Raised (e : exn)
| OutOfFuel.

Definition run : Type := list event * outcome.

Definition is_fetch (ev : event) : bool :=
  match ev with
  | Fetch _ _ => true
  | Yield _ => false
  end.

Definition yields (evs : list event) : list (gmap string value) :=
  omap (λ ev, match ev with Yield e => Some e | Fetch _ _ => None end) evs.

Definition fetches (evs : list event) : list (string * list (string * value)) :=
  omap (λ ev, match ev with Fetch u q => Some (u, q) | Yield _ => None end) evs.

(** Run [k] after a generator segment that has returned. *)
Definition and_then (r : run) (k : unit → run) : run :=
  match r with
  | (evs, Returned) => let '(evs', o) := k () in (evs ++ evs', o)
  | other => other
  end.

(** [for x in items: yield f(x)] *)
Fixpoint yield_each (f : value → result (gmap string value)) (items : list value) : run :=
  match items with
  | [] => ([], Returned)
  | x :: rest =>
      match f x with
      | Err e => ([], Raised e)
      | Ok entry => let '(evs, o) := yield_each f rest in (Yield entry :: evs, o)
      end
  end.

(** Modelled from the spec: [url_result] and [playlist_result] of the
    extractor base class are not among the sources.  A handler's
    [_real_extract] returns a media record, a playlist result with its
    metadata and a lazy sequence of entries, or, by
    [url_result(url, ie, video_id)], a redirect to another handler.  The
    entries are a generator, run with the fuel it is given. *)
Record playlist : Type := {
  pl_id : value;
  pl_title : value;
  pl_description : value;
  pl_thumbnail : value;
  pl_uploader : value;
  pl_entries : nat → run;
}.

Inductive ie_result : Type :=
| RedirectToHandler (url : string) (h : handler) (video_id : string)
| MediaRecord (info : gmap string value)
| PlaylistResult (p : playlist).

Definition is_redirect (r : result ie_result) : bool :=
  match r with
  | Ok (RedirectToHandler _ _ _) => true
  | _ => false
  end.

Fixpoint ends_with_rev (suffix s : list ascii) : bool :=
  match suffix, s with
  | [], _ => true
  | a :: suffix', b :: s' => Ascii.eqb a b && ends_with_rev suffix' s'
  | _ :: _, [] => false
  end.

(** [s.endswith(suffix)] *)
Definition endswith (s suffix : string) : bool :=
  ends_with_rev (rev (list_ascii_of_string suffix)) (rev (list_ascii_of_string s)).

(** [f'{n}'] for an integer *)
Definition format_int (n : Z) : string := NilZero.string_of_int (Z.to_int n).

(** [math.ceil(n / d)] on integers, [d] positive *)
Definition ceil_div (n d : Z) : Z := - ((- n) `div` d).

Definition entry_url_is (u : string) (e : gmap string value) : bool :=
  match e !! "url" with
  | Some (VStr s) => String.eqb s u
  | _ => false
  end.

Section Extractors.
Context `{Framework}.

(** *** [PolskieRadioBaseExtractor._extract_webpage_player_entries] *)

(** [self._parse_json(data_media, playlist_id, transform_source=unescapeHTML, fatal=False)] *)
Definition parse_data_media (data_media : string) : value :=
  match _parse_json (unescapeHTML data_media) with
  | Some v => v
  | None => VNone
  end.

(** [self._proto_relative_url(v)] and [compat_urllib_parse_unquote(v)] on
    a Python value: both work on strings and raise from inside on anything
    else. *)
Definition proto_relative (v : value) : result string :=
  match v with
  | VStr s => Ok (_proto_relative_url s)
  | _ => Err HelperError
  end.

Definition unquote (v : value) : result string :=
  match v with
  | VStr s => Ok (compat_urllib_parse_unquote s)
  | _ => Err HelperError
  end.

(** The body of the loop from [entry = base_data.copy()] to the [yield]. *)
Definition player_entry (base_data : gmap string value) (media : value)
    (media_url : string) : result (gmap string value) :=
  let* id := subscript media "id" in
  let* len := get media "length" in
  let* provider := get media "provider" in
  let entry : gmap string value :=
    {[ "id" := VStr (compat_str id);
       "url" := VStr media_url;
       "duration" := int_or_none len;
       "vcodec" := if py_eq provider (VStr "audio") then VStr "none" else VNone ]}
    ∪ base_data in
  let* desc := subscript media "desc" in
  let* entry_title := unquote desc in
  Ok (if negb (String.eqb entry_title "")
      then <["title" := VStr entry_title]> entry
      else entry).

(** One iteration: [Ok (None, _)] is a [continue]. *)
Definition player_step (base_data : gmap string value) (media_urls : gset string)
    (data_media : string) : result (option (gmap string value) * gset string) :=
  let media := parse_data_media data_media in
  let* file := get media "file" in
  if negb (truthy file) then Ok (None, media_urls) else
  let* desc := get media "desc" in
  if negb (truthy desc) then Ok (None, media_urls) else
  let* file := subscript media "file" in
  let* media_url := proto_relative file in
  if decide (media_url ∈ media_urls) then Ok (None, media_urls) else
  let media_urls := {[media_url]} ∪ media_urls in
  let* entry := player_entry base_data media media_url in
  Ok (Some entry, media_urls).

Fixpoint player_loop (base_data : gmap string value) (blocks : list string)
    (media_urls : gset string) : run :=
  match blocks with
  | [] => ([], Returned)
  | data_media :: rest =>
      match player_step base_data media_urls data_media with
      | Err e => ([], Raised e)
      | Ok (None, media_urls) => player_loop base_data rest media_urls
      | Ok (Some entry, media_urls) =>
          let '(evs, o) := player_loop base_data rest media_urls in
          (Yield entry :: evs, o)
      end
  end.

(** The generator; [re.findall] raises on a [webpage] that is not a
    string, when the generator is first advanced. *)
Definition _extract_webpage_player_entries (webpage : value) (playlist_id : string)
    (base_data : gmap string value) : run :=
  match webpage with
  | VStr webpage => player_loop base_data (findall_data_media webpage) ∅
  | _ => ([], Raised HelperError)
  end.

(** The stream URL a block contributes: the normalised ['file'] of a
    block that decodes to an object with a truthy ['file'] and a truthy
    ['desc'].  A block with no such URL does not get past the guard of
    the loop. *)
Definition block_url (data_media : string) : option string :=
  match parse_data_media data_media with
  | VDict d =>
      match dict_get d "file" with
      | VStr f =>
          if truthy (VStr f) && truthy (dict_get d "desc")
          then Some (_proto_relative_url f)
          else None
      | _ => None
      end
  | _ => None
  end.

Definition block_has_url (u : string) (data_media : string) : bool :=
  match block_url data_media with
  | Some u' => String.eqb u' u
  | None => false
  end.

(** A block merely carries a stream URL when its object has a non-empty
    string ['file'], whether or not it has a ['desc']. *)
Definition carries (data_media : string) (u : string) : Prop :=
  ∃ d f, parse_data_media data_media = VDict d ∧
         dict_get d "file" = VStr f ∧ truthy (VStr f) = true ∧
         _proto_relative_url f = u.

(** A block the guard drops: an object without a truthy ['file'] or
    without a truthy ['desc']. *)
Definition incomplete (data_media : string) : Prop :=
  ∃ d, parse_data_media data_media = VDict d ∧
       (truthy (dict_get d "file") = false ∨ truthy (dict_get d "desc") = false).

(** *** [PolskieRadioLegacyIE._real_extract] *)

Definition legacy_real_extract (url : string) : result ie_result :=
  let* playlist_id := _match_id PolskieRadioLegacyIE url in
  let* handle := helper (_download_webpage_handle url) in
  let '(webpage, urlh_url) := handle in
  if suitable PolskieRadioIE urlh_url
  then Ok (RedirectToHandler urlh_url PolskieRadioIE playlist_id)
  else
    let content := search_this_article webpage in
    let timestamp := unified_timestamp (search_datetime2 webpage) in
    let thumbnail_url := _og_search_thumbnail webpage in
    let* title := helper (_og_search_title webpage) in
    let title := strip title in
    let* description :=
      match strip_or_none (_og_search_description webpage) with
      | VNone => Ok VNone
      | VStr d => Ok (VStr (replace_nbsp d))
      | _ => Err AttributeError
      end in
    if negb (truthy content) then
      let* source := helper (search_audition_record_url webpage) in
      Ok (MediaRecord
            {[ "id" := VStr playlist_id;
               "url" := VStr (_proto_relative_url source);
               "title" := VStr title;
               "description" := description;
               "timestamp" := timestamp;
               "thumbnail" := thumbnail_url ]})
    else
      let entries :=
        _extract_webpage_player_entries content playlist_id
          {[ "title" := VStr title;
             "timestamp" := timestamp;
             "thumbnail" := thumbnail_url ]} in
      Ok (PlaylistResult
            {| pl_id := VStr playlist_id; pl_title := VStr title;
               pl_description := description; pl_thumbnail := VNone;
               pl_uploader := VNone; pl_entries := λ _, entries |}).

(** *** [PolskieRadioIE._real_extract] *)

(** One attachment of the list comprehension: [Ok None] when the [if]
    filters it out. *)
Definition attachment_entry (title : value) (entry : value)
    : result (option (gmap string value)) :=
  let* file_type := subscript entry "fileType" in
  if negb (py_eq file_type (VStr "Audio")) then Ok None else
  let* url := subscript entry "file" in
  let* file_name := get entry "fileName" in
  let* file := subscript entry "file" in
  let* id :=
    match file with
    | VStr f => helper (search_entry_id f)
    | _ => Err HelperError
    end in
  let* description := get entry "description" in
  Ok (Some {[ "url" := url;
              "ext" := determine_ext file_name;
              "id" := VStr id;
              "title" := py_or (strip_or_none description) title ]}).

Fixpoint attachment_entries (title : value) (attachments : list value)
    : result (list (gmap string value)) :=
  match attachments with
  | [] => Ok []
  | entry :: rest =>
      let* e := attachment_entry title entry in
      let* es := attachment_entries title rest in
      Ok (match e with Some e => e :: es | None => es end)
  end.

(** An attachment the comprehension's [if] filters out, and an audio
    attachment that has no ['file']. *)
Definition non_audio (attachment : value) : Prop :=
  ∃ file_type, subscript attachment "fileType" = Ok file_type ∧
               py_eq file_type (VStr "Audio") = false.

Definition audio_without_file (attachment : value) : Prop :=
  ∃ file_type, subscript attachment "fileType" = Ok file_type ∧
               py_eq file_type (VStr "Audio") = true ∧
               subscript attachment "file" = Err (KeyError "file").

Definition polskieradio_real_extract (url : string) : result ie_result :=
  let* playlist_id := _match_id PolskieRadioIE url in
  let* webpage := helper (_download_webpage url) in
  let* nextjs := helper (_search_nextjs_data webpage) in
  let article_data :=
    traverse_obj nextjs [[K "props"; K "pageProps"; K "data"; K "articleData"]] true in
  let* title := subscript article_data "title" in
  let title := strip_or_none title in
  let* lead := get article_data "lead" in
  let description := strip_or_none lead in
  let* attachments := get article_data "attachments" in
  let* attachments := iter (py_or attachments (VList [])) in
  let* entries := attachment_entries title attachments in
  Ok (PlaylistResult
        {| pl_id := VStr playlist_id; pl_title := title;
           pl_description := description; pl_thumbnail := VNone;
           pl_uploader := VNone;
           pl_entries := λ _, (map Yield entries, Returned) |}).

(** *** [PolskieRadioAuditionIE] *)

Definition lp3_url (path : string) : string :=
  ("https://lp3test.polskieradio.pl/" ++ path)%string.

Definition _call_lp3 (path : string) (query : list (string * value)) : result value :=
  helper (_download_json (lp3_url path) query).

Definition lp3_query (playlist_id : string) (page_size i : Z) : list (string * value) :=
  [("categoryId", VStr playlist_id); ("PageSize", VInt page_size);
   ("skip", VInt i); ("format", VInt 400)].

Definition episode_entry (episode : value) : result (gmap string value) :=
  let* id := subscript episode "id" in
  let* file := subscript episode "file" in
  let* title := get episode "title" in
  let* duration := get episode "duration" in
  let* date_public := get episode "datePublic" in
  Ok {[ "id" := VStr (compat_str id);
        "url" := file;
        "title" := title;
        "duration" := int_or_none duration;
        "timestamp" := parse_iso8601 date_public ]}.

Definition article_entry (article : value) : result (gmap string value) :=
  let* id := subscript article "id" in
  let* url := subscript article "url" in
  let* short_title := get article "shortTitle" in
  let description := traverse_obj article [[K "description"; K "lead"]] true in
  let* date_public := get article "datePublic" in
  Ok {[ "_type" := VStr "url_transparent";
        "ie_key" := VStr (ie_key PolskieRadioIE);
        "id" := VStr (compat_str id);
        "url" := url;
        "title" := short_title;
        "description" := description;
        "timestamp" := parse_iso8601 date_public ]}.

(** The two loops of [_entries] have one shape,
    [for i in itertools.count(...): page = self._call_lp3(...); if not
    traverse_obj(page, 'data'): break; for x in page['data']: yield ...];
    they differ in the endpoint, the page size and the entry built. *)
Fixpoint lp3_pages (path : string) (page_size : Z)
    (entry : value → result (gmap string value))
    (playlist_id : string) (fuel : nat) (i : Z) : run :=
  match fuel with
  | O => ([], OutOfFuel)
  | S fuel' =>
      let query := lp3_query playlist_id page_size i in
      let fetch := Fetch (lp3_url path) query in
      match _call_lp3 path query with
      | Err e => ([fetch], Raised e)
      | Ok page =>
          if negb (truthy (traverse_obj page [[K "data"]] true))
          then ([fetch], Returned)
          else
            match (let* data := subscript page "data" in iter data) with
            | Err e => ([fetch], Raised e)
            | Ok items =>
                let '(evs, o) :=
                  and_then (yield_each entry items)
                    (λ _, lp3_pages path page_size entry playlist_id fuel' (i + 1)) in
                (fetch :: evs, o)
            end
      end
  end.

Definition EPISODES : string := "AudioArticle/GetListByCategoryId".
Definition ARTICLES : string := "Article/GetListByCategoryId".

Definition audition_entries (playlist_id : string) (has_episodes has_articles : bool)
    (fuel : nat) : run :=
  and_then
    (if has_episodes
     then lp3_pages EPISODES 10 episode_entry playlist_id fuel 1
     else ([], Returned))
    (λ _, if has_articles
          then lp3_pages ARTICLES 9 article_entry playlist_id fuel 1
          else ([], Returned)).

(** What a stub of the API looks like to the loop: a page with items
    passes the [traverse_obj] test and its ['data'] is the list of
    items, an empty page fails the test.  [serves_from i pages] is an
    API that answers the requests for pages [i], [i + 1], ... with
    [pages] and then with one empty page. *)
Definition full_page (page : value) (items : list value) : Prop :=
  truthy (traverse_obj page [[K "data"]] true) = true ∧
  subscript page "data" = Ok (VList items).

Definition empty_page (page : value) : Prop :=
  truthy (traverse_obj page [[K "data"]] true) = false.

Definition serves_from (path : string) (page_size : Z) (playlist_id : string)
    (i : Z) (pages : list (list value)) : Prop :=
  (∀ (k : nat) items, pages !! k = Some items →
     ∃ page, _call_lp3 path (lp3_query playlist_id page_size (i + Z.of_nat k)) = Ok page ∧
             full_page page items) ∧
  (∃ page, _call_lp3 path
             (lp3_query playlist_id page_size (i + Z.of_nat (length pages))) = Ok page ∧
           empty_page page).

(** The trace of a stream that reads the pages [i], [i + 1], ... whose
    entries are [ess], then one empty page. *)
Fixpoint stream_trace (path : string) (page_size : Z) (playlist_id : string)
    (i : Z) (ess : list (list (gmap string value))) : list event :=
  match ess with
  | [] => [Fetch (lp3_url path) (lp3_query playlist_id page_size i)]
  | es :: rest =>
      Fetch (lp3_url path) (lp3_query playlist_id page_size i)
        :: map Yield es ++ stream_trace path page_size playlist_id (i + 1) rest
  end.

Definition is_episode_event (ev : event) : bool :=
  match ev with
  | Fetch u _ => String.eqb u (lp3_url EPISODES)
  | Yield e => match e !! "_type" with None => true | Some _ => false end
  end.

Definition is_article_event (ev : event) : bool :=
  match ev with
  | Fetch u _ => String.eqb u (lp3_url ARTICLES)
  | Yield e =>
      match e !! "_type" with
      | Some (VStr t) => String.eqb t "url_transparent"
      | _ => false
      end
  end.

Definition audition_real_extract (url : string) : result ie_result :=
  let* playlist_id := _match_id PolskieRadioAuditionIE url in
  let* webpage := helper (_download_webpage url) in
  let* nextjs := helper (_search_nextjs_data webpage) in
  let page_props :=
    traverse_obj nextjs [[K "props"; K "pageProps"; KAny [K "data"; KNone]]] false in
  let has_episodes := truthy (traverse_obj page_props [[K "episodes"]; [K "audios"]] true) in
  let has_articles := truthy (traverse_obj page_props [[K "articles"]] true) in
  Ok (PlaylistResult
        {| pl_id := VStr playlist_id;
           pl_title := traverse_obj page_props [[K "details"; K "name"]] true;
           pl_description :=
             traverse_obj page_props [[K "details"; K "description"; K "lead"]] true;
           pl_thumbnail := traverse_obj page_props [[K "details"; K "photo"]] true;
           pl_uploader := VNone;
           pl_entries := audition_entries playlist_id has_episodes has_articles |}).

(** *** [PolskieRadioCategoryIE] *)

(** Modelled from the spec: [url_result(url, ie, video_id, video_title)]
    as a playlist entry, a deferred reference: the target URL, the handler
    to resolve it with, and the id and title known so far. *)
Definition url_result (url : string) (ie : handler) (video_id : string)
    (video_title : value) : gmap string value :=
  let kwargs : gmap string value :=
    {[ "ie_key" := VStr (ie_key ie); "id" := VStr video_id ]} in
  let kwargs :=
    match video_title with
    | VNone => kwargs
    | t => <["title" := t]> kwargs
    end in
  <["url" := VStr url]> (<["_type" := VStr "url"]> kwargs).

Fixpoint category_links (url : string) (links : list (string * string)) : run :=
  match links with
  | [] => ([], Returned)
  | (a_entry, entry_id) :: rest =>
      let entry := extract_attributes a_entry in
      match get entry "href" with
      | Err e => ([], Raised e)
      | Ok href =>
          if negb (truthy href) then category_links url rest else
          match href, get entry "title" with
          | VStr href, Ok title =>
              let '(evs, o) := category_links url rest in
              (Yield (url_result (urljoin url href) PolskieRadioLegacyIE entry_id title)
                 :: evs, o)
          | _, Err e => ([], Raised e)
          | _, _ => ([], Raised TypeError)
          end
      end
  end.

Fixpoint category_entries (url : string) (fuel : nat) (content : string) : run :=
  match fuel with
  | O => ([], OutOfFuel)
  | S fuel' =>
      and_then (category_links url (findall_article_links content))
        (λ _, match search_next_link content with
              | None => ([], Returned)
              | Some next =>
                  let next_url := urljoin url next in
                  match _download_webpage next_url with
                  | None => ([Fetch next_url []], Raised HelperError)
                  | Some content' =>
                      let '(evs, o) := category_entries url fuel' content' in
                      (Fetch next_url [] :: evs, o)
                  end
              end)
  end.

Definition category_real_extract (url : string) : result ie_result :=
  let* category_id := _match_id PolskieRadioCategoryIE url in
  let* handle := helper (_download_webpage_handle url) in
  let '(webpage, urlh_url) := handle in
  if suitable PolskieRadioAuditionIE urlh_url
  then Ok (RedirectToHandler urlh_url PolskieRadioAuditionIE category_id)
  else
    let title := search_category_title webpage in
    Ok (PlaylistResult
          {| pl_id := VStr category_id; pl_title := title;
             pl_description := VNone; pl_thumbnail := VNone;
             pl_uploader := VNone;
             pl_entries := λ fuel, category_entries url fuel webpage |}).

(** *** [PolskieRadioPlayerIE] *)

Definition _BASE_URL : string := "https://player.polskieradio.pl".
Definition _PLAYER_URL : string := "https://player.polskieradio.pl/main.bundle.js".
Definition _STATIONS_API_URL : string := "https://apipr.polskieradio.pl/api/stacje".

Definition _get_channel_list : result value :=
  let* player_code := helper (_download_webpage _PLAYER_URL) in
  let* found := helper (search_channel_list player_code) in
  let channel_list := js_to_json found in
  helper (_parse_json channel_list).

Definition CHANNEL_NOT_FOUND : exn := ExtractorError "Channel not found".
Definition STATION_NOT_FOUND : exn :=
  ExtractorError "Station not found even though we extracted channel".

(** [c.get('url') == channel_url] *)
Definition is_channel (channel_url : string) (c : value) : result bool :=
  let* u := get c "url" in
  Ok (py_eq u (VStr channel_url)).

(** [s.get('Name') == (channel.get('streamName') or channel.get('name'))];
    the right-hand side is evaluated for every [s]. *)
Definition is_station (channel : value) (s : value) : result bool :=
  let* name := get s "Name" in
  let* stream_name := get channel "streamName" in
  let* channel_name := get channel "name" in
  Ok (py_eq name (py_or stream_name channel_name)).

Fixpoint stream_formats (streams : list value) : result (list value) :=
  match streams with
  | [] => Ok []
  | stream_url :: rest =>
      let* stream_url := proto_relative stream_url in
      let* new :=
        if endswith stream_url "/playlist.m3u8" then helper (_extract_m3u8_formats stream_url)
        else if endswith stream_url "/manifest.f4m" then helper (_extract_mpd_formats stream_url)
        else if endswith stream_url "/Manifest" then helper (_extract_ism_formats stream_url)
        else Ok [VDict [("url", VStr stream_url)]] in
      let* formats := stream_formats rest in
      Ok (new ++ formats)
  end.

(** The extraction once the channel id is known. *)
Definition player_extract (channel_url : string) : result ie_result :=
  let* channel_list := _get_channel_list in
  let* channels := iter channel_list in
  let* channel := next_where (is_channel channel_url) channels in
  match channel with
  | None => Err CHANNEL_NOT_FOUND
  | Some channel =>
      if negb (truthy channel) then Err CHANNEL_NOT_FOUND else
      let* station_list := helper (_download_json _STATIONS_API_URL []) in
      let* stations := iter station_list in
      let* station := next_where (is_station channel) stations in
      match station with
      | None => Err STATION_NOT_FOUND
      | Some station =>
          if negb (truthy station) then Err STATION_NOT_FOUND else
          let* streams := subscript station "Streams" in
          let* streams := iter streams in
          let* formats := stream_formats streams in
          let* id := subscript channel "id" in
          let* name := get channel "name" in
          let* stream_name := get channel "streamName" in
          Ok (MediaRecord
                {[ "id" := VStr (compat_str id);
                   "formats" := VList formats;
                   "title" := py_or name stream_name;
                   "display_id" := VStr channel_url;
                   "thumbnail" :=
                     VStr (_BASE_URL ++ "/images/" ++ channel_url ++ "-color-logo.png")%string;
                   "is_live" := VBool true ]})
      end
  end.

Definition player_real_extract (url : string) : result ie_result :=
  let* channel_url := _match_id PolskieRadioPlayerIE url in
  player_extract channel_url.

(** *** [PolskieRadioPodcastBaseExtractor] and [PolskieRadioPodcastListIE] *)

Definition _API_BASE : string := "https://apipodcasts.polskieradio.pl/api".
Definition _PAGE_SIZE : Z := 10.

Definition _parse_episode (data : value) : result (gmap string value) :=
  let* guid := subscript data "guid" in
  let* url := subscript data "url" in
  let* file_size := get data "fileSize" in
  let* title := subscript data "title" in
  let* description := get data "description" in
  let* length := get data "length" in
  let* publish_date := get data "publishDate" in
  let* image := get data "image" in
  let* podcast_title := get data "podcastTitle" in
  let* episode := subscript data "title" in
  Ok {[ "id" := guid;
        "formats" := VList [VDict [("url", url); ("filesize", int_or_none file_size)]];
        "title" := title;
        "description" := description;
        "duration" := int_or_none length;
        "timestamp" := parse_iso8601 publish_date;
        "thumbnail" := url_or_none image;
        "series" := podcast_title;
        "episode" := episode ]}.

Definition podcast_api_url (podcast_id : string) (page : Z) : string :=
  (_API_BASE ++ "/Podcasts/" ++ podcast_id ++ "/?pageSize=" ++ format_int _PAGE_SIZE
     ++ "&page=" ++ format_int page)%string.

Definition _call_api (podcast_id : string) (page : Z) : result value :=
  helper (_download_json (podcast_api_url podcast_id page) []).

(** The closure [get_page] of [_real_extract]; [data] is the response to
    the call for page 1 made before the list is built. *)
Definition get_page (podcast_id : string) (data : value) (page_num : Z) : run :=
  let from_page (page_data : value) : run :=
    match (let* items := subscript page_data "items" in iter items) with
    | Err e => ([], Raised e)
    | Ok items => yield_each _parse_episode items
    end in
  if negb (page_num =? 0) then
    let fetch := Fetch (podcast_api_url podcast_id (page_num + 1)) [] in
    match _call_api podcast_id (page_num + 1) with
    | Err e => ([fetch], Raised e)
    | Ok page_data => let '(evs, o) := from_page page_data in (fetch :: evs, o)
    end
  else from_page data.

(** Modelled from the spec: [InAdvancePagedList] of [yt_dlp.utils] is not
    among the sources.  With the number of pages known in advance, the
    list emits the pages [0 .. pagecount - 1] in order and stops; a page
    is produced by one call of the page function, made when iteration
    reaches that page, and its items are handed on once the whole page
    has been produced. *)
Definition whole_page (r : run) : run :=
  match r with
  | (evs, Returned) => (evs, Returned)
  | (evs, o) => (List.filter is_fetch evs, o)
  end.

Fixpoint pages_from (pagefunc : Z → run) (n : nat) (pagenum : Z) : run :=
  match n with
  | O => ([], Returned)
  | S n' =>
      and_then (whole_page (pagefunc pagenum))
        (λ _, pages_from pagefunc n' (pagenum + 1))
  end.

Definition InAdvancePagedList (pagefunc : Z → run) (pagecount : Z) : run :=
  pages_from pagefunc (Z.to_nat pagecount) 0.

(** [math.ceil(v / _PAGE_SIZE)].  The quotient is a float; for counts
    below 2^53 in absolute value its ceiling is the ceiling of the exact
    quotient, which is what the embedding computes. *)
Definition page_count (v : value) : result Z :=
  match v with
  | VInt n => Ok (ceil_div n _PAGE_SIZE)
  | VBool b => Ok (ceil_div (if b then 1 else 0) _PAGE_SIZE)
  | _ => Err TypeError
  end.

Definition podcast_list_real_extract (url : string) : result ie_result :=
  let* podcast_id := _match_id PolskieRadioPodcastListIE url in
  let* data := _call_api podcast_id 1 in
  let* item_count := subscript data "itemCount" in
  let* pagecount := page_count item_count in
  let* id := subscript data "id" in
  let* title := get data "title" in
  let* description := get data "description" in
  let* announcer := get data "announcer" in
  Ok (PlaylistResult
        {| pl_id := VStr (compat_str id);
           pl_title := title;
           pl_description := description;
           pl_thumbnail := VNone;
           pl_uploader := announcer;
           pl_entries := λ _, InAdvancePagedList (get_page podcast_id data) pagecount |}).

(** *** [PolskieRadioPodcastIE]

    The request is a POST; its JSON body travels in the query slot of
    [_download_json]. *)
Definition podcast_real_extract (url : string) : result ie_result :=
  let* podcast_id := _match_id PolskieRadioPodcastIE url in
  let* data :=
    helper (_download_json (_API_BASE ++ "/audio")%string
              [("guids", VList [VStr podcast_id])]) in
  let* first := first_item data in
  let* episode := _parse_episode first in
  Ok (MediaRecord episode).

(** *** [PolskieRadioRadioKierowcowIE] *)

Definition radiokierowcow_real_extract (url : string) : result ie_result :=
  let* media_id := _match_id PolskieRadioRadioKierowcowIE url in
  let* webpage := helper (_download_webpage url) in
  let* nextjs := helper (_search_nextjs_data webpage) in
  let* nextjs_build := subscript nextjs "buildId" in
  let* article :=
    helper (_download_json
              ("https://radiokierowcow.pl/_next/data/" ++ compat_str nextjs_build
                 ++ "/artykul/" ++ media_id ++ ".json?articleId=" ++ media_id)%string
              []) in
  let* page_props := subscript article "pageProps" in
  let* data := subscript page_props "data" in
  let* title := subscript data "title" in
  let* content := subscript data "content" in
  let entries :=
    _extract_webpage_player_entries content media_id {[ "title" := title ]} in
  let* lead := get data "lead" in
  Ok (PlaylistResult
        {| pl_id := VStr media_id; pl_title := title; pl_description := lead;
           pl_thumbnail := VNone; pl_uploader := VNone;
           pl_entries := λ _, entries |}).

(** [_real_extract] by handler *)
Definition _real_extract (h : handler) (url : string) : result ie_result :=
  match h with
  | PolskieRadioLegacyIE => legacy_real_extract url
  | PolskieRadioIE => polskieradio_real_extract url
  | PolskieRadioAuditionIE => audition_real_extract url
  | PolskieRadioCategoryIE => category_real_extract url
  | PolskieRadioPlayerIE => player_real_extract url
  | PolskieRadioPodcastListIE => podcast_list_real_extract url
  | PolskieRadioPodcastIE => podcast_real_extract url
  | PolskieRadioRadioKierowcowIE => radiokierowcow_real_extract url
  end.

(** The page [pagenum] of the podcast list holds [items]: page 0 is the
    first response [data] itself, page [pagenum > 0] is the API's answer
    to the request for page [pagenum + 1]. *)
Definition podcast_page (podcast_id : string) (data : value) (pagenum : Z)
    (items : list value) : Prop :=
  ∃ page_data,
    (if pagenum =? 0 then page_data = data
     else _call_api podcast_id (pagenum + 1) = Ok page_data) ∧
    subscript page_data "items" = Ok (VList items).

(** The trace of the paged list over the pages [pagenum], [pagenum + 1],
    ... whose entries are [ess]. *)
Fixpoint paged_trace (podcast_id : string) (pagenum : Z)
    (ess : list (list (gmap string value))) : list event :=
  match ess with
  | [] => []
  | es :: rest =>
      (if pagenum =? 0 then []
       else [Fetch (podcast_api_url podcast_id (pagenum + 1)) []])
        ++ map Yield es ++ paged_trace podcast_id (pagenum + 1) rest
  end.

End Extractors.

(** ** A test double of the framework

    Used to run the extractors on concrete documents: the JSON decoder,
    the block finder, the web and the API are given as tables. *)

Module Fake.

Definition step (obj : value) (k : key) : value :=
  match k with
  | K name => match obj with VDict d => dict_get d name | _ => VNone end
  | KNone => obj
  | KAny _ => VNone
  end.

Definition first_set (vs : list value) : value :=
  default VNone (find (λ v, match v with VNone => false | _ => true end) vs).

Definition step_any (obj : value) (k : key) : value :=
  match k with
  | KAny alternatives => first_set (map (step obj) alternatives)
  | _ => step obj k
  end.

Definition follow (obj : value) (path : list key) : value :=
  fold_left step_any path obj.

Definition traverse (obj : value) (paths : list (list key)) (get_all : bool) : value :=
  first_set (map (follow obj) paths).

Definition str (v : value) : string :=
  match v with
  | VStr s => s
  | VInt n => format_int n
  | VBool true => "True"
  | VBool false => "False"
  | VNone => "None"
  | _ => "[...]"
  end.

Definition only_int (v : value) : value :=
  match v with
  | VInt n => VInt n
  | _ => VNone
  end.

Definition only_str (v : value) : value :=
  match v with
  | VStr s => VStr s
  | _ => VNone
  end.

Definition proto (s : string) : string :=
  match strip_prefix "//" s with
  | Some _ => ("https:" ++ s)%string
  | None => s
  end.

Definition framework
    (parse : string → option value)
    (blocks : string → list string)
    (web : string → option (string * string))
    (api : string → list (string * value) → option value) : Framework :=
  {| traverse_obj := traverse;
     compat_str := str;
     int_or_none := only_int;
     parse_iso8601 := λ _, VNone;
     unified_timestamp := λ _, VNone;
     url_or_none := only_str;
     strip_or_none := only_str;
     determine_ext := λ _, VNone;
     unescapeHTML := λ s, s;
     compat_urllib_parse_unquote := λ s, s;
     js_to_json := λ s, s;
     extract_attributes := λ _, VDict [];
     urljoin := λ _ href, href;
     _proto_relative_url := proto;
     _parse_json := parse;
     _search_nextjs_data := parse;
     _og_search_title := λ _, Some "title";
     _og_search_thumbnail := λ _, VNone;
     _og_search_description := λ _, VNone;
     _extract_m3u8_formats := λ _, Some [];
     _extract_mpd_formats := λ _, Some [];
     _extract_ism_formats := λ _, Some [];
     findall_data_media := blocks;
     search_this_article := λ page, VStr page;
     search_datetime2 := λ _, VNone;
     search_audition_record_url := λ _, None;
     search_entry_id := λ file, Some file;
     findall_article_links := λ _, [];
     search_next_link := λ _, None;
     search_category_title := λ _, VNone;
     search_channel_list := λ code, Some code;
     replace_nbsp := λ s, s;
     strip := λ s, s;
     _download_webpage := λ url, fst <$> web url;
     _download_webpage_handle := web;
     _download_json := api |}.

Definition table {A} (t : list (string * A)) (k : string) : option A :=
  snd <$> find (λ kv, String.eqb (fst kv) k) t.

(** *** One small site *)

Definition media (id : Z) (file : string) (desc : option string) : value :=
  VDict ([("id", VInt id); ("file", VStr file)]
           ++ match desc with Some d => [("desc", VStr d)] | None => [] end).

Definition item (n : Z) : value :=
  VDict [("id", VInt n);
         ("file", VStr "//static.prsa.pl/episode.mp3");
         ("url", VStr "https://trojka.polskieradio.pl/artykul/1632955");
         ("shortTitle", VStr "A")].

Definition two_pages : list (list value) := [[item 1; item 2]; [item 3; item 4]].

Definition episode (guid : string) : value :=
  VDict [("guid", VStr guid);
         ("url", VStr "https://static.prsa.pl/podcast.mp3");
         ("title", VStr "Raport")].

Definition channel (url : string) (id : Z) (name : string) : value :=
  VDict [("url", VStr url); ("id", VInt id); ("name", VStr name)].

Definition channels : list value :=
  [channel "jedynka" 1 "Jedynka"; channel "trojka" 3 "Trojka"].

Definition stations : list value :=
  [VDict [("Name", VStr "Trojka");
          ("Streams", VList [VStr "//stream.polskieradio.pl/pr3"])]].

Definition article_data (attachments : list value) : value :=
  VDict [("props", VDict [("pageProps", VDict [("data", VDict [("articleData",
    VDict [("title", VStr "T"); ("attachments", VList attachments)])])])])].

Definition audition_props : value :=
  VDict [("props", VDict [("pageProps", VDict [("data",
    VDict [("episodes", VList [item 1]); ("articles", VList [item 1]);
           ("details", VDict [("name", VStr "Trojka budzi")])])])])].

Definition documents : list (string * value) :=
  [("m1", media 1 "//static.prsa.pl/a.mp3" None);
   ("m2", media 2 "//static.prsa.pl/a.mp3" (Some "second"));
   ("c1", media 1 "//static.prsa.pl/a.mp3" (Some "first"));
   ("channel list", VList channels);
   ("audio without file", article_data [VDict [("fileType", VStr "Audio")]]);
   ("audition", audition_props)].

Definition pages_blocks (webpage : string) : list string :=
  default [] (table [("first without desc", ["m1"; "m2"]);
                     ("second only", ["m2"]);
                     ("same file twice", ["c1"; "m2"])] webpage).

Definition LEGACY_URL : string :=
  "https://www.polskieradio.pl/8/2382/Artykul/2534482,Zagarysci-Poezja-jak-spoiwo".
Definition MODERN_URL : string := "https://jedynka.polskieradio.pl/artykul/2534482".
Definition CATEGORY_URL : string :=
  "http://www.polskieradio.pl/37,RedakcjaKatolicka/4143,Kierunek-Krakow".
Definition AUDITION_URL : string := "https://trojka.polskieradio.pl/audycja/8906".
Definition ARTICLE_URL : string := "https://jedynka.polskieradio.pl/artykul/1587943".
Definition PODCAST_URL : string := "https://podcasty.polskieradio.pl/podcast/8/".
Definition PLAYER_PAGE : string := "https://player.polskieradio.pl/anteny/trojka".

(** The web in which the legacy article and the category have moved to
    the redesigned site, and the one in which they have not. *)
Definition web_moved : string → option (string * string) :=
  table [(LEGACY_URL, ("", MODERN_URL));
         (CATEGORY_URL, ("", AUDITION_URL));
         (AUDITION_URL, ("audition", AUDITION_URL));
         (ARTICLE_URL, ("audio without file", ARTICLE_URL));
         (_PLAYER_URL, ("channel list", _PLAYER_URL))].

Definition web_unmoved : string → option (string * string) :=
  table [(LEGACY_URL, ("", LEGACY_URL)); (CATEGORY_URL, ("", CATEGORY_URL))].

Definition lp3 (pages : list (list value)) (query : list (string * value))
    : option value :=
  match assoc "skip" query with
  | Some (VInt i) =>
      Some (VDict [("data", VList (default [] (pages !! Z.to_nat (i - 1))))])
  | _ => None
  end.

Definition api (url : string) (query : list (string * value)) : option value :=
  match table [(podcast_api_url "8" 1,
                VDict [("itemCount", VInt 12); ("id", VInt 8);
                       ("items", VList [episode "a"])]);
               (podcast_api_url "8" 2, VDict [("items", VList [episode "b"])]);
               (_STATIONS_API_URL, VList stations)] url with
  | Some v => Some v
  | None => lp3 two_pages query
  end.

Definition site : Framework := framework (table documents) pages_blocks web_moved api.
Definition site_unmoved : Framework :=
  framework (table documents) pages_blocks web_unmoved api.

End Fake.

(** ** What a pattern accepts

    [matches r text] is the set of texts a pattern describes; the matcher
    is sound for it ([exec_sound] below).  The functions after it read a
    URL the way the patterns of the family do: the text after the scheme
    and, in it, the path from the first slash on. *)

Fixpoint all_chars (p : ascii → bool) (s : string) : bool :=
  match s with
  | EmptyString => true
  | String c s' => p c && all_chars p s'
  end.

Fixpoint matches (r : regex) (text : string) : Prop :=
  match r with
  | Lit l => text = l
  | Class p => ∃ c, text = String c EmptyString ∧ p c = true
  | Plus p => text ≠ EmptyString ∧ all_chars p text = true
  | Opt r1 => text = EmptyString ∨ matches r1 text
  | Seq r1 r2 => ∃ t1 t2, text = (t1 ++ t2)%string ∧ matches r1 t1 ∧ matches r2 t2
  | Group _ r1 => matches r1 text
  end.

Fixpoint take_while (p : ascii → bool) (s : string) : string :=
  match s with
  | String c s' => if p c then String c (take_while p s') else EmptyString
  | EmptyString => EmptyString
  end.

Fixpoint drop_while (p : ascii → bool) (s : string) : string :=
  match s with
  | String c s' => if p c then drop_while p s' else s
  | EmptyString => EmptyString
  end.

Definition starts_with (p : ascii → bool) (s : string) : bool :=
  match s with
  | String c _ => p c
  | EmptyString => false
  end.





(** The last element of a pattern. *)
Fixpoint final_group (r : regex) : regex :=
  match r with
  | Seq _ r2 => final_group r2
  | _ => r
  end.

(** ** The category listing: links and chains of pages *)

Section CategoryListing.
Context `{Framework}.

(** The entry [PolskieRadioCategoryIE._entries] builds from one link of a
    listing page; [None] for a link without a non-empty [href]. *)
Definition link_entry (url : string) (link : string * string)
    : option (gmap string value) :=
  match extract_attributes (fst link) with
  | VDict d =>
      match dict_get d "href" with
      | VStr href =>
          if truthy (VStr href)
          then Some (url_result (urljoin url href) PolskieRadioLegacyIE (snd link)
                       (dict_get d "title"))
          else None
      | _ => None
      end
  | _ => None
  end.

(** What [extract_attributes] returns for a tag: an object whose values
    are strings, or [None] for an attribute without a value. *)
Definition is_anchor (link : string * string) : Prop :=
  ∃ d, extract_attributes (fst link) = VDict d ∧
       (dict_get d "href" = VNone ∨ ∃ href, dict_get d "href" = VStr href).

Definition page_links (url : string) (content : string) : list event :=
  map Yield (omap (link_entry url) (findall_article_links content)).

(** [reaches url content pages last]: following the next links from
    [content] downloads the documents of [pages], each under the URL its
    predecessor links to, and ends at [last]. *)
Fixpoint reaches (url : string) (content : string) (pages : list (string * string))
    (last : string) : Prop :=
  match pages with
  | [] => last = content
  | (next, content') :: rest =>
      search_next_link content = Some next ∧
      _download_webpage (urljoin url next) = Some content' ∧
      reaches url content' rest last
  end.

(** The trace of a listing on its way from [content] through [pages]:
    the links of each document left behind, then the request for the
    next one. *)
Fixpoint listing_trace (url : string) (content : string)
    (pages : list (string * string)) : list event :=
  match pages with
  | [] => []
  | (next, content') :: rest =>
      page_links url content
        ++ Fetch (urljoin url next) [] :: listing_trace url content' rest
  end.

End CategoryListing.

(** ** A small listing

    A double of the framework for the category listing: the links of a
    document, its next link and the web are tables; an anchor tag is
    written as its [href]. *)

Module Listing.

Definition framework
    (links : string → list (string * string))
    (next : string → option string)
    (web : string → option string) : Framework :=
  {| traverse_obj := Fake.traverse;
     compat_str := Fake.str;
     int_or_none := Fake.only_int;
     parse_iso8601 := λ _, VNone;
     unified_timestamp := λ _, VNone;
     url_or_none := Fake.only_str;
     strip_or_none := Fake.only_str;
     determine_ext := λ _, VNone;
     unescapeHTML := λ s, s;
     compat_urllib_parse_unquote := λ s, s;
     js_to_json := λ s, s;
     extract_attributes := λ tag, VDict [("href", VStr tag)];
     urljoin := λ base href, (base ++ href)%string;
     _proto_relative_url := Fake.proto;
     _parse_json := λ _, None;
     _search_nextjs_data := λ _, None;
     _og_search_title := λ _, Some "title";
     _og_search_thumbnail := λ _, VNone;
     _og_search_description := λ _, VNone;
     _extract_m3u8_formats := λ _, Some [];
     _extract_mpd_formats := λ _, Some [];
     _extract_ism_formats := λ _, Some [];
     findall_data_media := λ _, [];
     search_this_article := λ page, VStr page;
     search_datetime2 := λ _, VNone;
     search_audition_record_url := λ _, None;
     search_entry_id := λ file, Some file;
     findall_article_links := links;
     search_next_link := next;
     search_category_title := λ _, VNone;
     search_channel_list := λ code, Some code;
     replace_nbsp := λ s, s;
     strip := λ s, s;
     _download_webpage := web;
     _download_webpage_handle := λ url, (λ page, (page, url)) <$> web url;
     _download_json := λ _ _, None |}.

Definition BASE : string := "http://www.polskieradio.pl".

(** Two pages of a category, a page whose next link is dead, and a page
    that links to itself. *)
Definition links (content : string) : list (string * string) :=
  default [] (Fake.table [("page 1", [("/8/1/Artykul/11", "11"); ("", "12")]);
                          ("page 2", [("/8/1/Artykul/21", "21")]);
                          ("dead end", [("/8/1/Artykul/31", "31")]);
                          ("loop", [("/8/1/Artykul/41", "41")])] content).

Definition next : string → option string :=
  Fake.table [("page 1", "/2"); ("dead end", "/missing"); ("loop", "/loop")].

Definition web : string → option string :=
  Fake.table [((BASE ++ "/2")%string, "page 2"); ((BASE ++ "/loop")%string, "loop")].

Definition site : Framework := framework links next web.

End Listing.

(** ** An API that fails *)

Section Failures.
Context `{Framework}.

(** An API that answers the requests for the pages [i], [i + 1], ... with
    [pages] and fails on the request after them. *)
Definition fails_after (path : string) (page_size : Z) (playlist_id : string)
    (i : Z) (pages : list (list value)) : Prop :=
  (∀ (k : nat) items, pages !! k = Some items →
     ∃ page, _call_lp3 path (lp3_query playlist_id page_size (i + Z.of_nat k)) = Ok page ∧
             full_page page items) ∧
  _download_json (lp3_url path)
    (lp3_query playlist_id page_size (i + Z.of_nat (length pages))) = None.

End Failures.


(** A site whose episode API answers the first request and then fails,
    and whose pages hold, between two good blocks, one that is not JSON. *)

Module Outage.

Definition api (url : string) (query : list (string * value)) : option value :=
  match assoc "skip" query with
  | Some (VInt 1) => Some (VDict [("data", VList [Fake.item 1; Fake.item 2])])
  | _ => None
  end.

Definition site : Framework :=
  Fake.framework (Fake.table Fake.documents) (λ _, ["c1"; "not json"; "m2"])
    Fake.web_moved api.

End Outage.

(** ** Plain streams *)

(** A stream URL that is none of the three manifests. *)
Definition plain (stream_url : string) : bool :=
  negb (endswith stream_url "/playlist.m3u8")
  && negb (endswith stream_url "/manifest.f4m")
  && negb (endswith stream_url "/Manifest").

(** ** [EngadgetIE]

    [src/yt_dlp/extractor/engadget.py]: one pattern and a reference to
    the AOL extractor. *)

Module EngadgetIE.

(** [[^/?#]] *)
Definition id_char (c : ascii) : bool := negb (one_of "/?#" c).

Definition _VALID_URL : regex :=
  (* https?://(?:www\.)?engadget\.com/video/(?P<id>[^/?#]+) *)
  seq_of [Lit "http"; Opt (Lit "s"); Lit "://"; Opt (Lit "www.");
          Lit "engadget.com/video/"; Group "id" (Plus id_char)].

(** Modelled from the spec: [_match_id] and [url_result] of the extractor
    base class, as for the handlers above; [url_result(url)] with no
    handler, id or title is a bare reference to the URL. *)
Definition _match_id (url : string) : result string :=
  match re_match _VALID_URL url with
  | Some caps =>
      match caps !! "id" with
      | Some id => Ok id
      | None => Err HelperError
      end
  | None => Err AttributeError
  end.

Definition url_result (url : string) : gmap string value :=
  {[ "_type" := VStr "url"; "url" := VStr url ]}.

Definition _real_extract (url : string) : result (gmap string value) :=
  let* video_id := _match_id url in
  Ok (url_result ("aol-video:" ++ video_id)%string).

End EngadgetIE.


(** ** The id of a result: definition *)

(** The id a result is known by: the [video_id] of a redirect, the
    ['id'] of a record, the playlist id of a playlist. *)
Definition result_id (r : ie_result) : option value :=
  match r with
  | RedirectToHandler _ _ video_id => Some (VStr video_id)
  | MediaRecord info => info !! "id"
  | PlaylistResult p => Some (pl_id p)
  end.

(** A site with a podcast list that counts no items and an article
    without attachments. *)

Module Bare.

Definition api (url : string) (query : list (string * value)) : option value :=
  Some (VDict [("itemCount", VInt 0); ("id", VInt 8)]).

Definition web : string → option (string * string) :=
  Fake.table [(Fake.ARTICLE_URL, ("bare article", Fake.ARTICLE_URL))].

Definition documents : list (string * value) :=
  [("bare article",
    VDict [("props", VDict [("pageProps", VDict [("data", VDict [("articleData",
      VDict [("title", VStr "T"); ("lead", VStr "L")])])])])])].

Definition site : Framework :=
  Fake.framework (Fake.table documents) (λ _, []) web api.

End Bare.

(** ** The transcription server: handlers

    [src/server.py] and [src/WHISPER/server.py]: two Flask handlers each,
    over a disk and the libraries they call. *)

(** [needle in s] on strings *)
Fixpoint contains (needle s : string) : bool :=
  match strip_prefix needle s with
  | Some _ => true
  | None =>
      match s with
      | String _ s' => contains needle s'
      | EmptyString => false
      end
  end.

Module Flask.

(** The files the server works with, by the path the code names them
    with (the directory [./input/] is taken to exist), and what a handler
    answers. *)
Abbreviation disk := (gmap string string).

Inductive failure : Type :=
| FileNotFoundError (path : string)
| IndexError
| LibraryError.

Inductive response : Type :=
| Redirect (location : string)
| Render (template title result_text : string)
| BadRequest
| ServerError (e : failure).

(** The libraries the server calls.  [transcribe] is Whisper on the
    content of an audio file; [ydl_download outtmpl url] is
    [YoutubeDL({..., 'outtmpl': outtmpl}).download([url])],
    [vimeo_streams url] is [Vimeo(url).streams] and
    [stream_download stream directory filename] is [stream.download]:
    each answers whether it went through and leaves a disk behind.  An
    exception of a library is answered with a 500. *)
Class Libraries : Type := {
  transcribe : string → option string;
  ydl_download : string → string → disk → bool * disk;
  vimeo_streams : string → option (list string);
  stream_download : string → string → string → disk → bool * disk;
}.

(** An uploaded file of the request. *)
Record upload : Type := { filename : string; body : string }.

Section Calls.
Context `{Libraries}.

(** [model.transcribe(path, verbose=True, fp16=False)['text']]; Whisper
    raises from inside when it cannot load the file. *)
Definition model_transcribe (path : string) (d : disk) : failure + string :=
  match d !! path with
  | None => inl LibraryError
  | Some audio =>
      match transcribe audio with
      | Some text => inr text
      | None => inl LibraryError
      end
  end.

(** [os.remove(path)] *)
Definition os_remove (path : string) (d : disk) : failure + disk :=
  match d !! path with
  | None => inl (FileNotFoundError path)
  | Some _ => inr (delete path d)
  end.

(** [file.save(path)] *)
Definition save (file : upload) (path : string) (d : disk) : disk :=
  <[path := body file]> d.

End Calls.

(** [src/server.py].  A request field that is missing ([None]) makes
    [request.files[...]] and [request.form[...]] answer 400. *)
Module Server.
Section Handlers.
Context `{Libraries}.

Definition INPUT : string := "./input/CHATGPT_.mp4".

Definition result_1 (file : option upload) (d : disk) : response * disk :=
  match file with
  | None => (BadRequest, d)
  | Some file =>
      if negb (String.eqb (filename file) "") then
        let d := save file "./input/CHATGPT_.mp4" d in
        match model_transcribe "./input/CHATGPT_.mp4" d with
        | inl e => (ServerError e, d)
        | inr text =>
            match os_remove "./input/CHATGPT_.mp4" d with
            | inl e => (ServerError e, d)
            | inr d => (Render "./result.html" "結果" text, d)
            end
        end
      else (Redirect "/", d)
  end.

Definition result_2 (url : option string) (d : disk) : response * disk :=
  let run (d : disk) : response * disk :=
    match model_transcribe "./input/CHATGPT_.mp4" d with
    | inl e => (ServerError e, d)
    | inr text =>
        match os_remove "./input/CHATGPT_.mp4" d with
        | inl e => (ServerError e, d)
        | inr d => (Render "./result.html" "結果" text, d)
        end
    end in
  match url with
  | None => (BadRequest, d)
  | Some url =>
      if negb (String.eqb url "") then
        if contains "youtu.be" url then
          match ydl_download "./input/CHATGPT_.mp4" url d with
          | (true, d) => run d
          | (false, d) => (ServerError LibraryError, d)
          end
        else if contains "vimeo.com" url then
          match vimeo_streams url with
          | None => (ServerError LibraryError, d)
          | Some s =>
              match last s with
              | None => (Redirect "/", d)
              | Some best_stream =>
                  match stream_download best_stream "./input/" "CHATGPT_.mp4" d with
                  | (true, d) => run d
                  | (false, d) => (ServerError LibraryError, d)
                  end
              end
          end
        else (Redirect "/", d)
      else run d
  end.

End Handlers.
End Server.

(** [src/WHISPER/server.py] *)
Module Whisper.
Section Handlers.
Context `{Libraries}.

Definition result_1 (file : option upload) (d : disk) : response * disk :=
  match file with
  | None => (BadRequest, d)
  | Some file =>
      let d :=
        if negb (String.eqb (filename file) "")
        then save file "CHATGPT_.mp3" d
        else d in
      match model_transcribe "CHATGPT_.mp4" d with
      | inl e => (ServerError e, d)
      | inr text =>
          match os_remove "CHATGPT_.mp3" d with
          | inl e => (ServerError e, d)
          | inr d => (Render "./result.html" "結果" text, d)
          end
      end
  end.

Definition result_2 (url : option string) (d : disk) : response * disk :=
  let run (d : disk) : response * disk :=
    match model_transcribe "CHATGPT_.mp4" d with
    | inl e => (ServerError e, d)
    | inr text =>
        match os_remove "CHATGPT_.mp4" d with
        | inl e => (ServerError e, d)
        | inr d => (Render "./result.html" "結果" text, d)
        end
    end in
  match url with
  | None => (BadRequest, d)
  | Some url =>
      if negb (String.eqb url "") then
        if contains "youtu.be" url then
          match ydl_download "CHATGPT_.mp3" url d with
          | (true, d) => run d
          | (false, d) => (ServerError LibraryError, d)
          end
        else if contains "vimeo.com" url then
          match vimeo_streams url with
          | None => (ServerError LibraryError, d)
          | Some s =>
              match last s with
              | None => (ServerError IndexError, d)
              | Some best_stream =>
                  match stream_download best_stream "" "CHATGPT_.mp4" d with
                  | (true, d) => run d
                  | (false, d) => (ServerError LibraryError, d)
                  end
              end
          end
        else (Redirect "/", d)
      else run d
  end.

End Handlers.
End Whisper.

(** Libraries for a test: the transcription of a file quotes it, a
    download writes the URL to its target, Vimeo has no streams. *)
Definition echo : Libraries :=
  {| transcribe := λ audio, Some ("text of " ++ audio)%string;
     ydl_download := λ outtmpl url d, (true, <[outtmpl := url]> d);
     vimeo_streams := λ _, Some [];
     stream_download := λ stream directory name d,
       (true, <[(directory ++ name)%string := stream]> d) |}.

End Flask.

(** ** The track id *)


(** An API that knows one track. *)

Module Track.

Definition api (url : string) (query : list (string * value)) : option value :=
  if String.eqb url (_API_BASE ++ "/audio")
  then Some (VList [Fake.episode "6eafe403-cb8f-4756-b896-4455c3713c32";
                    Fake.episode "another"])
  else None.

Definition site : Framework :=
  Fake.framework (λ _, None) (λ _, []) (λ _, None) api.


End Track.

(** * Properties *)

(** ** Dispatch *)

(** The URLs of the extractors' own [_TESTS] are accepted by their handler,
    with the expected resolution id. *)
Example legacy_tests :
  map (_match_id PolskieRadioLegacyIE)
    ["https://www.polskieradio.pl/8/2382/Artykul/2534482,Zagarysci-Poezja-jak-spoiwo";
     "https://www.polskieradio.pl/10/6071/Artykul/2610977,Poglos-29-pazdziernika-godz-2301";
     "https://polskieradio24.pl/130/4503/Artykul/2621876,Narusza-nasza-suwerennosc"]
  = [Ok "2534482"; Ok "2610977"; Ok "2621876"].
Proof. reflexivity. Qed.

Example polskieradio_tests :
  map (_match_id PolskieRadioIE)
    ["https://jedynka.polskieradio.pl/artykul/1587943";
     "https://trojka.polskieradio.pl/artykul/1632955";
     "https://trojka.polskieradio.pl/artykul/1634903";
     "https://jedynka.polskieradio.pl/artykul/3042436,Polityka-wschodnia-ojca-i-syna"]
  = [Ok "1587943"; Ok "1632955"; Ok "1634903"; Ok "3042436"].
Proof. reflexivity. Qed.

Example audition_tests :
  map (_match_id PolskieRadioAuditionIE)
    ["https://jedynka.polskieradio.pl/audycje/5102";
     "https://jedynka.polskieradio.pl/audycje/5769";
     "https://trojka.polskieradio.pl/audycja/8906"]
  = [Ok "5102"; Ok "5769"; Ok "8906"].
Proof. reflexivity. Qed.

Example category_tests :
  map (λ url, (suitable PolskieRadioCategoryIE url, _match_id PolskieRadioCategoryIE url))
    ["http://www.polskieradio.pl/7/129,Sygnaly-dnia?ref=source";
     "http://www.polskieradio.pl/37,RedakcjaKatolicka/4143,Kierunek-Krakow";
     "http://www.polskieradio.pl/10,czworka/214,muzyka";
     "http://www.polskieradio.pl/8,Dwojka/196,Publicystyka"]
  = [(true, Ok "129"); (true, Ok "4143"); (true, Ok "214"); (true, Ok "196")].
Proof. reflexivity. Qed.

Example other_tests :
  _match_id PolskieRadioPlayerIE "https://player.polskieradio.pl/anteny/trojka"
  = Ok "trojka" ∧
  _match_id PolskieRadioPodcastListIE "https://podcasty.polskieradio.pl/podcast/8/"
  = Ok "8" ∧
  _match_id PolskieRadioPodcastIE
    "https://podcasty.polskieradio.pl/track/6eafe403-cb8f-4756-b896-4455c3713c32"
  = Ok "6eafe403-cb8f-4756-b896-4455c3713c32" ∧
  _match_id PolskieRadioRadioKierowcowIE "https://radiokierowcow.pl/artykul/2694529"
  = Ok "2694529".
Proof. repeat split. Qed.

Lemma strip_prefix_inv p s r : strip_prefix p s = Some r → s = (p ++ r)%string.
Proof.
  revert s. induction p as [|a p IH]; intros s; cbn.
  - by intros [= ->].
  - destruct s as [|b s]; [done|]. destruct (Ascii.eqb_spec a b) as [-> |]; [|done].
    by intros ->%IH.
Qed.









Section Properties.
Context `{Framework}.

(** ** Pagination *)

Lemma yield_each_ok f items es :
  Forall2 (λ x e, f x = Ok e) items es →
  yield_each f items = (map Yield es, Returned).
Proof.
  induction 1 as [|x e items es Hx _ IH]; [done|].
  cbn [yield_each map]. by rewrite Hx, IH.
Qed.

Lemma yields_map_Yield es : yields (map Yield es) = es.
Proof. unfold yields. induction es as [|e es IH]; [done|]. cbn. by rewrite IH. Qed.

Lemma fetches_map_Yield es : fetches (map Yield es) = [].
Proof. unfold fetches. by induction es. Qed.

Lemma yields_app evs evs' : yields (evs ++ evs') = yields evs ++ yields evs'.
Proof. apply omap_app. Qed.

Lemma fetches_app evs evs' : fetches (evs ++ evs') = fetches evs ++ fetches evs'.
Proof. apply omap_app. Qed.

Lemma serves_from_tail path size pid i items pages :
  serves_from path size pid i (items :: pages) →
  serves_from path size pid (i + 1) pages.
Proof.
  intros [Hfull Hempty]. split.
  - intros k its Hk. destruct (Hfull (S k) its Hk) as (page & Hcall & Hpage).
    exists page. split; [|done]. rewrite <- Hcall. do 2 f_equal. lia.
  - destruct Hempty as (page & Hcall & Hpage). exists page. split; [|done].
    rewrite <- Hcall. do 2 f_equal. cbn [length]. lia.
Qed.

(** The loop on a stub API: every page is fetched once, in order, its
    entries are yielded before the next fetch, and the empty page ends
    the loop. *)
Lemma lp3_pages_serves path size entry pid pages :
  ∀ ess fuel i,
    (length pages < fuel)%nat →
    serves_from path size pid i pages →
    Forall2 (Forall2 (λ x e, entry x = Ok e)) pages ess →
    lp3_pages path size entry pid fuel i
    = (stream_trace path size pid i ess, Returned).
Proof.
  induction pages as [|items pages IH]; intros ess fuel i Hfuel Hserves Hentries.
  - apply Forall2_nil_inv_l in Hentries as ->.
    destruct fuel as [|fuel]; [cbn in Hfuel; lia|].
    destruct Hserves as (_ & page & Hcall & Hempty).
    cbn [length] in Hcall. rewrite Z.add_0_r in Hcall.
    cbn [lp3_pages stream_trace]. rewrite Hcall.
    unfold empty_page in Hempty. by rewrite Hempty.
  - apply Forall2_cons_inv_l in Hentries as (es & ess' & Hes & Hess & ->).
    destruct fuel as [|fuel]; [cbn in Hfuel; lia|].
    pose proof (serves_from_tail _ _ _ _ _ _ Hserves) as Htail.
    destruct Hserves as (Hfull & _).
    destruct (Hfull 0%nat items eq_refl) as (page & Hcall & Htruthy & Hdata).
    rewrite Z.add_0_r in Hcall.
    cbn [lp3_pages stream_trace]. rewrite Hcall, Htruthy, Hdata.
    cbn [negb bind iter]. rewrite (yield_each_ok _ _ _ Hes).
    cbn [and_then]. rewrite (IH ess' fuel (i + 1)); [done| |done|done].
    cbn [length] in Hfuel. lia.
Qed.

Lemma yields_stream_trace path size pid ess :
  ∀ i, yields (stream_trace path size pid i ess) = concat ess.
Proof.
  induction ess as [|es ess IH]; intros i; [done|].
  cbn [stream_trace concat].
  change (yields (?ev :: ?evs)) with (yields evs).
  by rewrite yields_app, yields_map_Yield, IH.
Qed.

Lemma fetches_stream_trace path size pid ess :
  ∀ i, fetches (stream_trace path size pid i ess)
       = map (λ k : nat, (lp3_url path, lp3_query pid size (i + Z.of_nat k)))
             (seq 0 (S (length ess))).
Proof.
  induction ess as [|es ess IH]; intros i.
  - cbn. by rewrite Z.add_0_r.
  - cbn [stream_trace length].
    change (fetches (Fetch ?u ?q :: ?evs)) with ((u, q) :: fetches evs).
    rewrite fetches_app, fetches_map_Yield, IH. cbn [app].
    change (seq 0 (S (S (length ess)))) with (0%nat :: seq 1 (S (length ess))).
    cbn [map]. rewrite Z.add_0_r. f_equal.
    rewrite <- (fmap_S_seq 0). generalize (seq 0 (S (length ess))).
    intros l. induction l as [|k l IHl]; [done|].
    cbn. rewrite <- IHl. do 3 f_equal. lia.
Qed.

Lemma entries_exist (f : value → result (gmap string value)) items :
  Forall (λ x, ∃ e, f x = Ok e) items →
  ∃ es, Forall2 (λ x e, f x = Ok e) items es.
Proof.
  induction 1 as [|x items [e He] _ [es Hes]]; [by exists []|].
  exists (e :: es). by constructor.
Qed.

Lemma page_entries_exist (f : value → result (gmap string value)) pages :
  Forall (Forall (λ x, ∃ e, f x = Ok e)) pages →
  ∃ ess, Forall2 (Forall2 (λ x e, f x = Ok e)) pages ess.
Proof.
  induction 1 as [|items pages Hitems _ [ess Hess]]; [by exists []|].
  destruct (entries_exist _ _ Hitems) as [es Hes].
  exists (es :: ess). by constructor.
Qed.

Lemma episode_entry_ok x :
  has_key x "id" ∧ has_key x "file" → ∃ e, episode_entry x = Ok e.
Proof.
  intros [(d & id & -> & Hid) (d' & file & [= <-] & Hfile)].
  unfold episode_entry. cbn [subscript get bind]. rewrite Hid, Hfile. eauto.
Qed.

Lemma article_entry_ok x :
  has_key x "id" ∧ has_key x "url" → ∃ e, article_entry x = Ok e.
Proof.
  intros [(d & id & -> & Hid) (d' & url & [= <-] & Hurl)].
  unfold article_entry. cbn [subscript get bind]. rewrite Hid, Hurl. eauto.
Qed.

Lemma length_page_entries {A B} (R : A → B → Prop) (n : nat) pages ess :
  Forall (λ items, length items = n) pages →
  Forall2 (Forall2 R) pages ess →
  length (concat ess) = (length pages * n)%nat.
Proof.
  intros Hlen Hess. revert Hlen.
  induction Hess as [|items es pages ess Hes _ IH]; intros Hlen; [done|].
  apply Forall_cons in Hlen as [Hn Hlen].
  cbn [concat length]. rewrite length_app, IH by done.
  apply Forall2_length in Hes. lia.
Qed.

Lemma stream_reads path size entry pid (page_size : nat) pages ess fuel :
  Forall (λ items, length items = page_size) pages →
  (length pages < fuel)%nat →
  serves_from path size pid 1 pages →
  Forall2 (Forall2 (λ x e, entry x = Ok e)) pages ess →
  let r := lp3_pages path size entry pid fuel 1 in
  r = (stream_trace path size pid 1 ess, Returned) ∧
  yields r.1 = concat ess ∧
  length (yields r.1) = (length pages * page_size)%nat ∧
  fetches r.1
  = map (λ k : nat, (lp3_url path, lp3_query pid size (1 + Z.of_nat k)))
        (seq 0 (S (length pages))).
Proof.
  intros Hlen Hfuel Hserves Hess r. subst r.
  rewrite (lp3_pages_serves _ _ _ _ _ _ _ _ Hfuel Hserves Hess). cbn [fst].
  rewrite yields_stream_trace, fetches_stream_trace.
  rewrite (length_page_entries _ _ _ _ Hlen Hess).
  by rewrite (Forall2_length _ _ _ Hess).
Qed.

(** C1: on an API that answers the page requests 1, 2, ..., N with pages
    of [page_size] items each and the request N + 1 with an empty page,
    the episode stream (and likewise the article stream) of the audition
    playlist returns normally, yields exactly the N * [page_size] entries
    of those pages, in order, and issues exactly the N + 1 requests for
    the page indices 1 .. N + 1: nothing is fetched beyond the empty
    page.  Any fuel above N is enough. *)
Theorem open_ended_pagination (pid : string) (page_size : nat)
    (pages : list (list value)) (fuel : nat) :
  Forall (λ items, length items = page_size) pages →
  (length pages < fuel)%nat →
  (Forall (Forall (λ x, has_key x "id" ∧ has_key x "file")) pages →
   serves_from EPISODES 10 pid 1 pages →
   ∃ ess,
     Forall2 (Forall2 (λ x e, episode_entry x = Ok e)) pages ess ∧
     let r := audition_entries pid true false fuel in
     r = (stream_trace EPISODES 10 pid 1 ess, Returned) ∧
     yields r.1 = concat ess ∧
     length (yields r.1) = (length pages * page_size)%nat ∧
     fetches r.1
     = map (λ k : nat, (lp3_url EPISODES, lp3_query pid 10 (1 + Z.of_nat k)))
           (seq 0 (S (length pages)))) ∧
  (Forall (Forall (λ x, has_key x "id" ∧ has_key x "url")) pages →
   serves_from ARTICLES 9 pid 1 pages →
   ∃ ess,
     Forall2 (Forall2 (λ x e, article_entry x = Ok e)) pages ess ∧
     let r := audition_entries pid false true fuel in
     r = (stream_trace ARTICLES 9 pid 1 ess, Returned) ∧
     yields r.1 = concat ess ∧
     length (yields r.1) = (length pages * page_size)%nat ∧
     fetches r.1
     = map (λ k : nat, (lp3_url ARTICLES, lp3_query pid 9 (1 + Z.of_nat k)))
           (seq 0 (S (length pages)))).
Proof.
  intros Hlen Hfuel. split; intros Hschema Hserves.
  - destruct (page_entries_exist episode_entry pages) as [ess Hess].
    { eapply Forall_impl; [exact Hschema|]. intros items Hitems.
      eapply Forall_impl; [exact Hitems|]. apply episode_entry_ok. }
    exists ess. split; [exact Hess|].
    pose proof (stream_reads _ _ _ _ _ _ _ _ Hlen Hfuel Hserves Hess) as Hreads.
    cbn zeta in Hreads |- *. unfold audition_entries.
    destruct Hreads as (-> & Hrest). cbn [and_then fst] in Hrest |- *.
    by rewrite app_nil_r.
  - destruct (page_entries_exist article_entry pages) as [ess Hess].
    { eapply Forall_impl; [exact Hschema|]. intros items Hitems.
      eapply Forall_impl; [exact Hitems|]. apply article_entry_ok. }
    exists ess. split; [exact Hess|].
    pose proof (stream_reads _ _ _ _ _ _ _ _ Hlen Hfuel Hserves Hess) as Hreads.
    cbn zeta in Hreads |- *. unfold audition_entries.
    by destruct Hreads as (-> & Hrest).
Qed.

(** ** Paging with a known total *)

Lemma ceil_div_bounds n : 10 * (ceil_div n 10 - 1) < n ≤ 10 * ceil_div n 10.
Proof.
  unfold ceil_div.
  pose proof (Z.div_mod (- n) 10 ltac:(lia)).
  pose proof (Z.mod_pos_bound (- n) 10 ltac:(lia)). lia.
Qed.

Lemma get_page_ok pid data pagenum items es :
  podcast_page pid data pagenum items →
  Forall2 (λ x e, _parse_episode x = Ok e) items es →
  get_page pid data pagenum
  = ((if pagenum =? 0 then []
      else [Fetch (podcast_api_url pid (pagenum + 1)) []]) ++ map Yield es,
     Returned).
Proof.
  intros (page_data & Hpage & Hitems) Hes. unfold get_page.
  destruct (pagenum =? 0); cbn [negb].
  - subst page_data. rewrite Hitems. cbn [bind iter].
    by rewrite (yield_each_ok _ _ _ Hes).
  - rewrite Hpage, Hitems. cbn [bind iter].
    by rewrite (yield_each_ok _ _ _ Hes).
Qed.

Lemma pages_from_ok pid data pages :
  ∀ ess pagenum,
    (∀ (j : nat) items, pages !! j = Some items →
       podcast_page pid data (pagenum + Z.of_nat j) items) →
    Forall2 (Forall2 (λ x e, _parse_episode x = Ok e)) pages ess →
    pages_from (get_page pid data) (length pages) pagenum
    = (paged_trace pid pagenum ess, Returned).
Proof.
  induction pages as [|items pages IH]; intros ess pagenum Hpages Hess.
  - by apply Forall2_nil_inv_l in Hess as ->.
  - apply Forall2_cons_inv_l in Hess as (es & ess' & Hes & Hess & ->).
    cbn [length pages_from paged_trace].
    pose proof (Hpages 0%nat items eq_refl) as Hpage. rewrite Z.add_0_r in Hpage.
    rewrite (get_page_ok _ _ _ _ _ Hpage Hes). cbn [whole_page and_then].
    rewrite (IH ess' (pagenum + 1)); [by rewrite <- app_assoc| |done].
    intros j its Hj. specialize (Hpages (S j) its Hj).
    by replace (pagenum + 1 + Z.of_nat j) with (pagenum + Z.of_nat (S j)) by lia.
Qed.

Lemma fetches_paged_trace pid ess :
  ∀ pagenum, 0 < pagenum →
    fetches (paged_trace pid pagenum ess)
    = map (λ k : nat, (podcast_api_url pid (pagenum + Z.of_nat k + 1), []))
          (seq 0 (length ess)).
Proof.
  induction ess as [|es ess IH]; intros pagenum Hpos; [done|].
  cbn [paged_trace length]. destruct (Z.eqb_spec pagenum 0) as [?|_]; [lia|].
  rewrite !fetches_app, fetches_map_Yield, IH by lia.
  change (seq 0 (S (length ess))) with (0%nat :: seq 1 (length ess)).
  cbn [map app fetches omap list_omap]. rewrite Z.add_0_r. f_equal.
  rewrite <- (fmap_S_seq 0). generalize (seq 0 (length ess)).
  intros l. induction l as [|k l IHl]; [done|].
  cbn. rewrite <- IHl. do 3 f_equal. lia.
Qed.

(** C2: when the first response declares [itemCount = n] (a count below
    2^53), the podcast list is the paged list over exactly ceil(n / 10)
    pages.  Page 0 is
    read from the first response, without a request; page k > 0 is
    requested as API page k + 1 when the iteration reaches it, after the
    entries of the pages before it.  So a full iteration requests the API
    pages 2 .. ceil(n / 10) once each, in order, and nothing else. *)
Theorem known_total_pagination (url pid : string) (data id : value) (n : Z) :
  _match_id PolskieRadioPodcastListIE url = Ok pid →
  _call_api pid 1 = Ok data →
  subscript data "itemCount" = Ok (VInt n) →
  0 ≤ n < 2 ^ 53 →
  subscript data "id" = Ok id →
  let pagecount := ceil_div n _PAGE_SIZE in
  _PAGE_SIZE = 10 ∧
  10 * (pagecount - 1) < n ≤ 10 * pagecount ∧
  ∃ p,
    podcast_list_real_extract url = Ok (PlaylistResult p) ∧
    (∀ fuel, pl_entries p fuel = InAdvancePagedList (get_page pid data) pagecount) ∧
    (∀ pages ess fuel,
       Z.of_nat (length pages) = pagecount →
       (∀ (j : nat) items, pages !! j = Some items →
          podcast_page pid data (Z.of_nat j) items) →
       Forall2 (Forall2 (λ x e, _parse_episode x = Ok e)) pages ess →
       pl_entries p fuel = (paged_trace pid 0 ess, Returned) ∧
       length ess = Z.to_nat pagecount ∧
       yields (pl_entries p fuel).1 = concat ess ∧
       fetches (pl_entries p fuel).1
       = map (λ k : nat, (podcast_api_url pid (Z.of_nat k + 1), []))
             (seq 1 (Z.to_nat pagecount - 1))).
Proof.
  intros Hid Hcall Hcount Hn Hdata pagecount.
  split; [done|]. split; [apply ceil_div_bounds|].
  destruct data as [| | | | |d]; try discriminate Hcount.
  eexists. split; [|split].
  - unfold podcast_list_real_extract. rewrite Hid. cbn [bind].
    rewrite Hcall. cbn [bind]. rewrite Hcount. cbn [bind page_count]. rewrite Hdata. cbn [bind get].
    reflexivity.
  - done.
  - intros pages ess fuel Hlen Hpages Hess. cbn [pl_entries].
    unfold InAdvancePagedList. fold pagecount.
    rewrite <- Hlen, Nat2Z.id.
    rewrite (pages_from_ok pid (VDict d) pages ess 0); [|exact Hpages|done].
    cbn [fst]. split; [done|]. split; [by rewrite <- (Forall2_length _ _ _ Hess)|].
    split.
    + clear. generalize 0. induction ess as [|es ess IH]; intros k; [done|].
      cbn [paged_trace concat]. rewrite !yields_app, yields_map_Yield, IH.
      by destruct (k =? 0).
    + rewrite (Forall2_length _ _ _ Hess). clear.
      destruct ess as [|es ess]; [done|].
      cbn [paged_trace length]. cbn [Z.eqb app].
      rewrite fetches_app, fetches_map_Yield, fetches_paged_trace by lia.
      cbn [app]. replace (S (length ess) - 1)%nat with (length ess) by lia.
      rewrite <- (fmap_S_seq 0). generalize (seq 0 (length ess)).
      intros l. induction l as [|k l IHl]; [done|].
      cbn. rewrite <- IHl. do 3 f_equal. lia.
Qed.

(** ** The merge order of the audition playlist *)

Lemma episode_entry_type x e : episode_entry x = Ok e → e !! "_type" = None.
Proof.
  unfold episode_entry.
  destruct (subscript x "id"); cbn [bind]; [|done].
  destruct (subscript x "file"); cbn [bind]; [|done].
  destruct (get x "title"); cbn [bind]; [|done].
  destruct (get x "duration"); cbn [bind]; [|done].
  destruct (get x "datePublic"); cbn [bind]; [|done].
  by intros [= <-].
Qed.

Lemma article_entry_type x e :
  article_entry x = Ok e → e !! "_type" = Some (VStr "url_transparent").
Proof.
  unfold article_entry.
  destruct (subscript x "id"); cbn [bind]; [|done].
  destruct (subscript x "url"); cbn [bind]; [|done].
  destruct (get x "shortTitle"); cbn [bind]; [|done].
  destruct (get x "datePublic"); cbn [bind]; [|done].
  by intros [= <-].
Qed.

Lemma yield_each_events (P : gmap string value → Prop) f items :
  (∀ x e, f x = Ok e → P e) →
  Forall (λ ev, match ev with Fetch _ _ => False | Yield e => P e end)
         (yield_each f items).1.
Proof.
  intros Hf. induction items as [|x items IH]; [by constructor|].
  cbn [yield_each]. destruct (f x) as [e|] eqn:Hx; [|by constructor].
  destruct (yield_each f items) as [evs o]. constructor; [|done].
  by apply (Hf x).
Qed.

Lemma lp3_pages_events (P : gmap string value → Prop) path size entry pid fuel :
  (∀ x e, entry x = Ok e → P e) →
  ∀ i, Forall (λ ev, match ev with
                     | Fetch u _ => u = lp3_url path
                     | Yield e => P e
                     end) (lp3_pages path size entry pid fuel i).1.
Proof.
  intros Hentry. induction fuel as [|fuel IH]; intros i; [by constructor|].
  cbn [lp3_pages]. destruct (_call_lp3 _ _) as [page|]; [|by repeat constructor].
  destruct (truthy _); cbn [negb]; [|by repeat constructor].
  destruct (bind _ _) as [items|]; [|by repeat constructor].
  pose proof (yield_each_events P entry items Hentry) as Hitems.
  destruct (yield_each entry items) as [evs [| |]]; cbn [and_then fst] in *.
  - specialize (IH (i + 1)). destruct (lp3_pages _ _ _ _ _ _) as [evs' o'].
    constructor; [done|]. apply Forall_app. split; [|done].
    eapply Forall_impl; [exact Hitems|]. by intros [].
  - constructor; [done|]. eapply Forall_impl; [exact Hitems|]. by intros [].
  - constructor; [done|]. eapply Forall_impl; [exact Hitems|]. by intros [].
Qed.

Lemma episode_stream_events pid fuel i :
  Forall is_episode_event (lp3_pages EPISODES 10 episode_entry pid fuel i).1.
Proof.
  eapply Forall_impl;
    [apply (lp3_pages_events (λ e, e !! "_type" = None)), episode_entry_type|].
  intros [u q|e]; cbn.
  - by intros ->.
  - by intros ->.
Qed.

Lemma article_stream_events pid fuel i :
  Forall is_article_event (lp3_pages ARTICLES 9 article_entry pid fuel i).1.
Proof.
  eapply Forall_impl;
    [apply (lp3_pages_events (λ e, e !! "_type" = Some (VStr "url_transparent"))),
       article_entry_type|].
  intros [u q|e]; cbn.
  - by intros ->.
  - by intros ->.
Qed.

Lemma audition_entries_split pid has_episodes has_articles fuel :
  ∃ evs1 evs2,
    (audition_entries pid has_episodes has_articles fuel).1 = evs1 ++ evs2 ∧
    Forall is_episode_event evs1 ∧
    Forall is_article_event evs2 ∧
    (has_episodes = false → evs1 = []) ∧
    (has_articles = false → evs2 = []).
Proof.
  unfold audition_entries.
  destruct has_episodes.
  - pose proof (episode_stream_events pid fuel 1) as Hep.
    destruct (lp3_pages EPISODES _ _ _ _ _) as [evs1 [| |]]; cbn [and_then fst] in *.
    + destruct has_articles.
      * pose proof (article_stream_events pid fuel 1) as Hart.
        destruct (lp3_pages ARTICLES _ _ _ _ _) as [evs2 o]. cbn [fst] in *.
        by exists evs1, evs2.
      * exists evs1, []. by repeat split.
    + exists evs1, []. rewrite app_nil_r. by repeat split.
    + exists evs1, []. rewrite app_nil_r. by repeat split.
  - cbn [and_then]. destruct has_articles.
    + pose proof (article_stream_events pid fuel 1) as Hart.
      destruct (lp3_pages ARTICLES _ _ _ _ _) as [evs2 o]. cbn [fst] in *.
      by exists [], evs2.
    + by exists [], [].
Qed.

(** C10: the trace of the audition playlist is an episode part followed
    by an article part, whatever the API answers: all episode requests and
    episode entries come before all article requests and article entries.
    The episode part is empty (no request at all) when [has_episodes] is
    false, and so is the article part when [has_articles] is false; the
    two flags are the truth values of the page props' episodes/audios and
    articles members.  On an API that serves N episode pages and M article
    pages, the playlist is the episode entries in page order, each page in
    item order, followed by the article entries in page order. *)
Theorem audition_merge_order (pid : string) :
  (∀ has_episodes has_articles fuel,
     ∃ evs1 evs2,
       (audition_entries pid has_episodes has_articles fuel).1 = evs1 ++ evs2 ∧
       Forall is_episode_event evs1 ∧
       Forall is_article_event evs2 ∧
       (has_episodes = false → evs1 = []) ∧
       (has_articles = false → evs2 = [])) ∧
  (∀ episode_pages article_pages fuel,
     (length episode_pages < fuel)%nat →
     (length article_pages < fuel)%nat →
     Forall (Forall (λ x, has_key x "id" ∧ has_key x "file")) episode_pages →
     Forall (Forall (λ x, has_key x "id" ∧ has_key x "url")) article_pages →
     serves_from EPISODES 10 pid 1 episode_pages →
     serves_from ARTICLES 9 pid 1 article_pages →
     ∃ episodes articles,
       Forall2 (Forall2 (λ x e, episode_entry x = Ok e)) episode_pages episodes ∧
       Forall2 (Forall2 (λ x e, article_entry x = Ok e)) article_pages articles ∧
       audition_entries pid true true fuel
       = (stream_trace EPISODES 10 pid 1 episodes
            ++ stream_trace ARTICLES 9 pid 1 articles, Returned) ∧
       yields (audition_entries pid true true fuel).1
       = concat episodes ++ concat articles) ∧
  (∀ url webpage nextjs,
     _match_id PolskieRadioAuditionIE url = Ok pid →
     _download_webpage url = Some webpage →
     _search_nextjs_data webpage = Some nextjs →
     let page_props :=
       traverse_obj nextjs [[K "props"; K "pageProps"; KAny [K "data"; KNone]]] false in
     ∃ p, audition_real_extract url = Ok (PlaylistResult p) ∧
          pl_entries p
          = audition_entries pid
              (truthy (traverse_obj page_props [[K "episodes"]; [K "audios"]] true))
              (truthy (traverse_obj page_props [[K "articles"]] true))).
Proof.
  split; [|split].
  - intros. apply audition_entries_split.
  - intros episode_pages article_pages fuel Hfuel1 Hfuel2 Hschema1 Hschema2 Hep Hart.
    destruct (page_entries_exist episode_entry episode_pages) as [episodes Hepisodes].
    { eapply Forall_impl; [exact Hschema1|]. intros items Hitems.
      eapply Forall_impl; [exact Hitems|]. apply episode_entry_ok. }
    destruct (page_entries_exist article_entry article_pages) as [articles Harticles].
    { eapply Forall_impl; [exact Hschema2|]. intros items Hitems.
      eapply Forall_impl; [exact Hitems|]. apply article_entry_ok. }
    exists episodes, articles. split; [done|]. split; [done|].
    unfold audition_entries.
    rewrite (lp3_pages_serves _ _ _ _ _ _ _ _ Hfuel1 Hep Hepisodes).
    rewrite (lp3_pages_serves _ _ _ _ _ _ _ _ Hfuel2 Hart Harticles).
    cbn [and_then fst]. split; [done|].
    by rewrite yields_app, !yields_stream_trace.
  - intros url webpage nextjs Hid Hpage Hnext page_props.
    unfold audition_real_extract. rewrite Hid, Hpage. cbn [bind helper].
    rewrite Hnext. cbn [bind helper]. eexists. split; [reflexivity|]. done.
Qed.

(** ** The entries of a web page's players *)

Lemma player_entry_url base media u e :
  player_entry base media u = Ok e → e !! "url" = Some (VStr u).
Proof.
  unfold player_entry.
  destruct (subscript media "id"); cbn [bind]; [|done].
  destruct (get media "length"); cbn [bind]; [|done].
  destruct (get media "provider"); cbn [bind]; [|done].
  destruct (subscript media "desc"); cbn [bind]; [|done].
  destruct (unquote _); cbn [bind]; [|done].
  intros [= <-]. destruct (negb _).
  - rewrite lookup_insert_ne by done. by rewrite lookup_union_l'.
  - by rewrite lookup_union_l'.
Qed.

Lemma entry_url_is_of e u0 u :
  e !! "url" = Some (VStr u0) → entry_url_is u e = String.eqb u0 u.
Proof. unfold entry_url_is. by intros ->. Qed.

Lemma player_step_skip base seen b r :
  block_url b = None → player_step base seen b = Ok r → r = (None, seen).
Proof.
  unfold block_url, player_step. intros Hnone.
  destruct (parse_data_media b) as [| | | | |d]; try done.
  cbn [get subscript bind]. unfold dict_get in *.
  destruct (assoc "file" d) as [file|]; [|by intros [= <-]].
  destruct (truthy file) eqn:Hfile; cbn [negb]; [|by intros [= <-]].
  destruct (truthy (match assoc "desc" d with Some v => v | None => VNone end));
    cbn [negb andb bind]; [|by intros [= <-]].
  destruct file; cbn [proto_relative bind]; try done.
  by rewrite Hfile in Hnone.
Qed.

Lemma player_step_complete base seen b u :
  block_url b = Some u →
  player_step base seen b
  = if decide (u ∈ seen) then Ok (None, seen)
    else bind (player_entry base (parse_data_media b) u)
           (λ entry, Ok (Some entry, {[u]} ∪ seen)).
Proof.
  unfold block_url, player_step.
  destruct (parse_data_media b) as [| | | | |d]; try done.
  cbn [get subscript bind]. unfold dict_get.
  destruct (assoc "file" d) as [[| | |f| |]|]; try done.
  destruct (truthy (VStr f)); cbn [negb andb]; [|done].
  destruct (truthy (match assoc "desc" d with Some v => v | None => VNone end));
    cbn [negb bind proto_relative]; [|done].
  by intros [= <-].
Qed.

Lemma player_step_incomplete base seen b :
  incomplete b → player_step base seen b = Ok (None, seen).
Proof.
  intros (d & Hd & Hguard). unfold player_step. rewrite Hd. cbn [get bind].
  destruct (truthy (dict_get d "file")); cbn [negb]; [|done].
  destruct Hguard as [?| ->]; done.
Qed.

(** The invariant of the loop: of the entries with a given URL the run
    yields none if the URL was seen before, and otherwise at most the entry
    of the first block that contributes the URL; it does yield that entry
    unless an exception ends the run early. *)
Lemma player_loop_urls base blocks :
  ∀ seen evs o u,
    player_loop base blocks seen = (evs, o) →
    if decide (u ∈ seen) then List.filter (entry_url_is u) (yields evs) = []
    else match find (block_has_url u) blocks with
         | None => List.filter (entry_url_is u) (yields evs) = []
         | Some first =>
             (∃ e, player_entry base (parse_data_media first) u = Ok e ∧
                   List.filter (entry_url_is u) (yields evs) = [e]) ∨
             (o ≠ Returned ∧ List.filter (entry_url_is u) (yields evs) = [])
         end.
Proof.
  assert (∀ (e : exn) (u : string) (seen : gset string) (l : list string),
            if decide (u ∈ seen) then List.filter (entry_url_is u) (yields []) = []
            else match find (block_has_url u) l with
                 | None => List.filter (entry_url_is u) (yields []) = []
                 | Some first =>
                     (∃ e', player_entry base (parse_data_media first) u = Ok e' ∧
                            List.filter (entry_url_is u) (yields []) = [e']) ∨
                     (Raised e ≠ Returned ∧ List.filter (entry_url_is u) (yields []) = [])
                 end) as Hraised.
  { intros e u seen l. destruct (decide _); [done|]. destruct (find _ _); [|done].
    by right. }
  induction blocks as [|b blocks IH]; intros seen evs o u Hrun.
  - injection Hrun as <- <-. by destruct (decide _).
  - cbn [player_loop] in Hrun.
    destruct (block_url b) as [u0|] eqn:Hb.
    + rewrite (player_step_complete _ _ _ _ Hb) in Hrun.
      assert (block_has_url u b = String.eqb u0 u) as Hhas
        by (unfold block_has_url; by rewrite Hb).
      destruct (decide (u0 ∈ seen)) as [Hseen0|Hfresh].
      * specialize (IH seen evs o u Hrun). destruct (decide (u ∈ seen)); [done|].
        cbn [find]. rewrite Hhas.
        destruct (String.eqb_spec u0 u) as [-> |_]; done.
      * destruct (player_entry base (parse_data_media b) u0) as [e0|e] eqn:He0;
          cbn [bind] in Hrun.
        -- destruct (player_loop base blocks ({[u0]} ∪ seen)) as [evs' o'] eqn:Hrest.
           injection Hrun as <- <-. specialize (IH _ _ _ u Hrest).
           change (yields (Yield e0 :: evs')) with (e0 :: yields evs').
           cbn [List.filter find].
           rewrite (entry_url_is_of _ _ u (player_entry_url _ _ _ _ He0)), Hhas.
           destruct (String.eqb_spec u0 u) as [-> |Hne].
           ++ destruct (decide (u ∈ seen)); [done|].
              destruct (decide (u ∈ {[u]} ∪ seen)) as [_|Hout]; [|set_solver].
              left. exists e0. by rewrite IH.
           ++ destruct (decide (u ∈ seen)) as [Hseen|Hnew].
              ** destruct (decide (u ∈ {[u0]} ∪ seen)) as [_|Hout]; [done|set_solver].
              ** destruct (decide (u ∈ {[u0]} ∪ seen)) as [Hin|_]; [|done].
                 apply elem_of_union in Hin as [Hin%elem_of_singleton|Hin]; congruence.
        -- injection Hrun as <- <-. apply Hraised.
    + destruct (player_step base seen b) as [[[e0|] seen']|e] eqn:Hstep.
      * by apply (player_step_skip _ _ _ _ Hb) in Hstep.
      * apply (player_step_skip _ _ _ _ Hb) in Hstep as [= ->].
        specialize (IH seen evs o u Hrun). destruct (decide _); [done|].
        cbn [find]. unfold block_has_url at 1. by rewrite Hb.
      * injection Hrun as <- <-. apply Hraised.
Qed.

Lemma find_first {A} (p : A → bool) l x :
  find p l = Some x →
  ∃ l1 l2, l = l1 ++ x :: l2 ∧ p x = true ∧ Forall (λ y, p y = false) l1.
Proof.
  induction l as [|y l IH]; [done|]. cbn [find].
  destruct (p y) eqn:Hy.
  - intros [= ->]. by exists [], l.
  - intros (l1 & l2 & -> & Hx & Hl1)%IH. exists (y :: l1), l2. by repeat constructor.
Qed.

Lemma find_is_Some {A} (p : A → bool) l x :
  x ∈ l → p x = true → is_Some (find p l).
Proof.
  induction 1 as [x l|x y l _ IH]; intros Hx; cbn [find].
  - by rewrite Hx.
  - destruct (p y); [done|by apply IH].
Qed.

(** C5, amended: among the [data-media] blocks that get past the guard
    (an object with a truthy ['file'] and a truthy ['desc']), blocks with
    the same normalised stream URL give at most one entry, built from the
    first such block, and exactly that one when the extraction runs to its
    end; a URL that no such block contributes gives no entry. *)
Theorem dedup_by_stream_url (webpage pid : string) (base : gmap string value)
    (evs : list event) (o : outcome) :
  _extract_webpage_player_entries (VStr webpage) pid base = (evs, o) →
  (∀ b u,
     b ∈ findall_data_media webpage →
     block_url b = Some u →
     ∃ before first after,
       findall_data_media webpage = before ++ first :: after ∧
       block_url first = Some u ∧
       Forall (λ b', block_url b' ≠ Some u) before ∧
       ((∃ e, player_entry base (parse_data_media first) u = Ok e ∧
              List.filter (entry_url_is u) (yields evs) = [e]) ∨
        (o ≠ Returned ∧ List.filter (entry_url_is u) (yields evs) = []))) ∧
  (∀ u,
     Forall (λ b, block_url b ≠ Some u) (findall_data_media webpage) →
     List.filter (entry_url_is u) (yields evs) = []).
Proof.
  intros Hrun. unfold _extract_webpage_player_entries in Hrun.
  split.
  - intros b u Hb Hu.
    pose proof (player_loop_urls _ _ _ _ _ u Hrun) as Hinv.
    destruct (decide (u ∈ ∅)) as [Hin|_]; [by apply not_elem_of_empty in Hin|].
    destruct (find_is_Some (block_has_url u) _ b Hb) as [first Hfirst].
    { unfold block_has_url. rewrite Hu. apply String.eqb_refl. }
    rewrite Hfirst in Hinv.
    apply find_first in Hfirst as (before & after & Hsplit & Hurl & Hbefore).
    exists before, first, after. split; [done|]. split; [|split; [|done]].
    + unfold block_has_url in Hurl. destruct (block_url first); [|done].
      by apply String.eqb_eq in Hurl as ->.
    + eapply Forall_impl; [exact Hbefore|]. intros b' Hb' Heq.
      unfold block_has_url in Hb'. rewrite Heq, String.eqb_refl in Hb'. done.
  - intros u Hnone.
    pose proof (player_loop_urls _ _ _ _ _ u Hrun) as Hinv.
    destruct (decide (u ∈ ∅)) as [Hin|_]; [by apply not_elem_of_empty in Hin|].
    destruct (find _ _) as [first|] eqn:Hfirst; [|done].
    apply find_first in Hfirst as (before & after & Hsplit & Hurl & _).
    rewrite Hsplit in Hnone. apply Forall_app in Hnone as [_ Hnone].
    apply Forall_cons in Hnone as [Hnone _].
    unfold block_has_url in Hurl. destruct (block_url first); [|done].
    apply String.eqb_eq in Hurl as ->. done.
Qed.

(** ** Incomplete records *)

Lemma player_loop_drop base before b after :
  incomplete b →
  ∀ seen, player_loop base (before ++ b :: after) seen
          = player_loop base (before ++ after) seen.
Proof.
  intros Hb. induction before as [|b0 before IH]; intros seen.
  - cbn [app player_loop]. by rewrite (player_step_incomplete _ _ _ Hb).
  - cbn [app player_loop].
    destruct (player_step base seen b0) as [[[e|] seen']|]; [|done|done].
    by rewrite IH.
Qed.

Lemma attachment_entries_app title before after :
  attachment_entries title (before ++ after)
  = bind (attachment_entries title before)
      (λ es, bind (attachment_entries title after) (λ es', Ok (es ++ es'))).
Proof.
  induction before as [|a before IH]; cbn [app attachment_entries bind].
  - by destruct (attachment_entries title after).
  - destruct (attachment_entry title a) as [e|]; cbn [bind]; [|done].
    rewrite IH. destruct (attachment_entries title before); cbn [bind]; [|done].
    destruct (attachment_entries title after); cbn [bind]; [|done].
    by destruct e.
Qed.

(** C6, amended: a [data-media] block whose object lacks a truthy
    ['file'] or a truthy ['desc'] is skipped without an error: the
    extraction behaves as on the page without that block.  The article
    handler of the modern site skips the attachments whose ['fileType'] is
    not ['Audio'] in the same way; an audio attachment without a ['file']
    is not skipped, it raises [KeyError]. *)
Theorem incomplete_records_dropped :
  (∀ webpage webpage' pid base before b after,
     findall_data_media webpage = before ++ b :: after →
     findall_data_media webpage' = before ++ after →
     incomplete b →
     _extract_webpage_player_entries (VStr webpage) pid base
     = _extract_webpage_player_entries (VStr webpage') pid base) ∧
  (∀ title before a after,
     non_audio a →
     attachment_entries title (before ++ a :: after)
     = attachment_entries title (before ++ after)) ∧
  (∀ title before a after es,
     attachment_entries title before = Ok es →
     audio_without_file a →
     attachment_entries title (before ++ a :: after) = Err (KeyError "file")).
Proof.
  split; [|split].
  - intros webpage webpage' pid base before b after Hpage Hpage' Hb.
    unfold _extract_webpage_player_entries. rewrite Hpage, Hpage'.
    by apply player_loop_drop.
  - intros title before a after (file_type & Htype & Hother).
    rewrite !attachment_entries_app. cbn [attachment_entries].
    unfold attachment_entry. rewrite Htype. cbn [bind]. rewrite Hother. cbn [negb bind].
    destruct (attachment_entries title before); cbn [bind]; [|done].
    by destruct (attachment_entries title after).
  - intros title before a after es Hbefore (file_type & Htype & Haudio & Hfile).
    rewrite attachment_entries_app, Hbefore. cbn [bind attachment_entries].
    unfold attachment_entry. rewrite Htype. cbn [bind]. rewrite Haudio. cbn [negb].
    by rewrite Hfile.
Qed.

(** ** Seed fields *)


(** ** Concrete records *)







(** ** The lookups of the live player *)


Lemma next_where_first p before x after :
  Forall (λ y, p y = Ok false) before →
  p x = Ok true →
  next_where p (before ++ x :: after) = Ok (Some x).
Proof.
  intros Hbefore Hx. induction Hbefore as [|y before Hy _ IH]; cbn.
  - by rewrite Hx.
  - by rewrite Hy.
Qed.


Lemma is_channel_truthy channel_url c :
  is_channel channel_url c = Ok true → truthy c = true.
Proof.
  unfold is_channel. destruct c as [| | | | |d]; try done.
  cbn [get bind]. unfold dict_get. destruct d; [|done].
  cbn [assoc]. done.
Qed.

Lemma has_key_truthy s k : has_key s k → truthy s = true.
Proof. intros (d & x & -> & Hx). by destruct d. Qed.







(** ** Redirects *)

(** C4: the legacy-article handler redirects to the modern handler
    exactly when the final URL of the document it fetched is suitable for
    [PolskieRadioIE], whatever the input URL was, and does so only after
    the fetch has succeeded; the category handler does the same towards
    the audition handler. *)
Theorem redirect_follows_fetched_url (url webpage final id : string) :
  (_match_id PolskieRadioLegacyIE url = Ok id →
   (_download_webpage_handle url = Some (webpage, final) →
    if suitable PolskieRadioIE final
    then legacy_real_extract url = Ok (RedirectToHandler final PolskieRadioIE id)
    else is_redirect (legacy_real_extract url) = false) ∧
   (_download_webpage_handle url = None →
    legacy_real_extract url = Err HelperError)) ∧
  (_match_id PolskieRadioCategoryIE url = Ok id →
   (_download_webpage_handle url = Some (webpage, final) →
    if suitable PolskieRadioAuditionIE final
    then category_real_extract url = Ok (RedirectToHandler final PolskieRadioAuditionIE id)
    else is_redirect (category_real_extract url) = false) ∧
   (_download_webpage_handle url = None →
    category_real_extract url = Err HelperError)).
Proof.
  split; intros Hid; (split; [intros Hfetch|intros Hfail]).
  - unfold legacy_real_extract. rewrite Hid, Hfetch. cbn [bind helper].
    destruct (suitable PolskieRadioIE final); [done|].
    destruct (_og_search_title webpage); cbn [bind helper]; [|done].
    destruct (strip_or_none _); cbn [bind]; try done;
      destruct (truthy _); cbn [negb]; try done;
      try (destruct (search_audition_record_url _); cbn [bind helper]; try done);
      by destruct (search_this_article _).
  - unfold legacy_real_extract. by rewrite Hid, Hfail.
  - unfold category_real_extract. rewrite Hid, Hfetch. cbn [bind helper].
    by destruct (suitable PolskieRadioAuditionIE final).
  - unfold category_real_extract. by rewrite Hid, Hfail.
Qed.

End Properties.

(** * The theorems at work on the small site *)


Lemma redirect_follows_fetched_url_witness :
  @legacy_real_extract Fake.site Fake.LEGACY_URL
  = Ok (RedirectToHandler Fake.MODERN_URL PolskieRadioIE "2534482") ∧
  is_redirect (@legacy_real_extract Fake.site_unmoved Fake.LEGACY_URL) = false ∧
  @category_real_extract Fake.site Fake.CATEGORY_URL
  = Ok (RedirectToHandler Fake.AUDITION_URL PolskieRadioAuditionIE "4143") ∧
  is_redirect (@category_real_extract Fake.site_unmoved Fake.CATEGORY_URL) = false.
Proof.
  split; [|split; [|split]].
  - destruct (@redirect_follows_fetched_url Fake.site
                Fake.LEGACY_URL "" Fake.MODERN_URL "2534482") as [Hlegacy _].
    destruct Hlegacy as [Hfetched _]; [vm_compute; reflexivity|].
    apply Hfetched. vm_compute; reflexivity.
  - destruct (@redirect_follows_fetched_url Fake.site_unmoved
                Fake.LEGACY_URL "" Fake.LEGACY_URL "2534482") as [Hlegacy _].
    destruct Hlegacy as [Hfetched _]; [vm_compute; reflexivity|].
    apply Hfetched. vm_compute; reflexivity.
  - destruct (@redirect_follows_fetched_url Fake.site
                Fake.CATEGORY_URL "" Fake.AUDITION_URL "4143") as [_ Hcategory].
    destruct Hcategory as [Hfetched _]; [vm_compute; reflexivity|].
    apply Hfetched. vm_compute; reflexivity.
  - destruct (@redirect_follows_fetched_url Fake.site_unmoved
                Fake.CATEGORY_URL "" Fake.CATEGORY_URL "4143") as [_ Hcategory].
    destruct Hcategory as [Hfetched _]; [vm_compute; reflexivity|].
    apply Hfetched. vm_compute; reflexivity.
Defined.

Lemma site_serves (path : string) (size : Z) :
  @serves_from Fake.site path size "8906" 1 Fake.two_pages.
Proof.
  split.
  - intros k items Hk. destruct k as [|[|k]].
    + injection Hk as <-. eexists. split; [reflexivity|]. split; reflexivity.
    + injection Hk as <-. eexists. split; [reflexivity|]. split; reflexivity.
    + discriminate Hk.
  - eexists. split; reflexivity.
Defined.

Lemma site_items (k : string) :
  k = "file" ∨ k = "url" →
  Forall (Forall (λ x, has_key x "id" ∧ has_key x k)) Fake.two_pages.
Proof.
  intros [-> | ->]; repeat constructor; eexists _, _; split; reflexivity.
Defined.

Lemma open_ended_pagination_witness :
  let episodes := @audition_entries Fake.site "8906" true false 3 in
  let articles := @audition_entries Fake.site "8906" false true 3 in
  (episodes.2 = Returned ∧ length (yields episodes.1) = 4%nat ∧
   length (fetches episodes.1) = 3%nat) ∧
  (articles.2 = Returned ∧ length (yields articles.1) = 4%nat ∧
   length (fetches articles.1) = 3%nat).
Proof.
  intros episodes articles.
  destruct (@open_ended_pagination Fake.site "8906" 2 Fake.two_pages 3)
    as [Hep Hart].
  { repeat constructor. }
  { cbn. lia. }
  split.
  - destruct Hep as (ess & _ & Hrun & _ & Hlen & Hfetches).
    { apply site_items. by left. }
    { apply site_serves. }
    fold episodes in Hrun, Hlen, Hfetches.
    split; [by rewrite Hrun|]. split; [exact Hlen|]. by rewrite Hfetches.
  - destruct Hart as (ess & _ & Hrun & _ & Hlen & Hfetches).
    { apply site_items. by right. }
    { apply site_serves. }
    fold articles in Hrun, Hlen, Hfetches.
    split; [by rewrite Hrun|]. split; [exact Hlen|]. by rewrite Hfetches.
Defined.

Lemma audition_merge_order_witness :
  let run := @audition_entries Fake.site "8906" true true 3 in
  run.2 = Returned ∧
  length (yields run.1) = 8%nat ∧
  (∃ evs1 evs2, run.1 = evs1 ++ evs2 ∧
                Forall (@is_episode_event) evs1 ∧ Forall (@is_article_event) evs2) ∧
  (@audition_entries Fake.site "8906" false false 3).1 = [] ∧
  ∃ p, @audition_real_extract Fake.site Fake.AUDITION_URL = Ok (PlaylistResult p) ∧
       pl_entries p = @audition_entries Fake.site "8906" true true.
Proof.
  intros run.
  destruct (@audition_merge_order Fake.site "8906") as (Hsplit & Hserved & Hflags).
  destruct (Hserved Fake.two_pages Fake.two_pages 3%nat)
    as (episodes & articles & Hepisodes & Harticles & Hrun & Hyields).
  { cbn. lia. }
  { cbn. lia. }
  { apply site_items. by left. }
  { apply site_items. by right. }
  { apply site_serves. }
  { apply site_serves. }
  fold run in Hrun, Hyields.
  split; [by rewrite Hrun|]. split.
  { rewrite Hyields, length_app.
    rewrite (length_page_entries _ 2 Fake.two_pages _ ltac:(repeat constructor) Hepisodes).
    by rewrite (length_page_entries _ 2 Fake.two_pages _ ltac:(repeat constructor) Harticles). }
  split.
  { destruct (Hsplit true true 3%nat) as (evs1 & evs2 & Heq & Hfirst & Hsecond & _).
    by exists evs1, evs2. }
  split.
  { destruct (Hsplit false false 3%nat) as (evs1 & evs2 & Heq & _ & _ & Hno1 & Hno2).
    by rewrite Heq, Hno1, Hno2. }
  destruct (Hflags Fake.AUDITION_URL "audition" Fake.audition_props)
    as (p & Hextract & Hentries); [vm_compute; reflexivity..|].
  exists p. split; [exact Hextract|]. exact Hentries.
Defined.

Lemma known_total_pagination_witness :
  ∃ p, @podcast_list_real_extract Fake.site Fake.PODCAST_URL = Ok (PlaylistResult p) ∧
       (pl_entries p 0).2 = Returned ∧
       length (yields (pl_entries p 0).1) = 2%nat ∧
       fetches (pl_entries p 0).1 = [(podcast_api_url "8" 2, [])].
Proof.
  destruct (@known_total_pagination Fake.site Fake.PODCAST_URL "8"
              (VDict [("itemCount", VInt 12); ("id", VInt 8);
                      ("items", VList [Fake.episode "a"])]) (VInt 8) 12)
    as (_ & _ & p & Hextract & _ & Hpages);
    [vm_compute; reflexivity| reflexivity | reflexivity | lia | reflexivity |].
  exists p. split; [exact Hextract|].
  destruct (Hpages [[Fake.episode "a"]; [Fake.episode "b"]]
              [[default ∅ (match @_parse_episode Fake.site (Fake.episode "a") with
                           | Ok e => Some e | Err _ => None end)];
               [default ∅ (match @_parse_episode Fake.site (Fake.episode "b") with
                           | Ok e => Some e | Err _ => None end)]] 0%nat)
    as (Hrun & _ & Hyields & Hfetches).
  { reflexivity. }
  { intros j items Hj. destruct j as [|[|j]].
    - injection Hj as <-. eexists. split; reflexivity.
    - injection Hj as <-. eexists. split; reflexivity.
    - discriminate Hj. }
  { repeat constructor. }
  split; [by rewrite Hrun|]. split; [by rewrite Hyields|]. exact Hfetches.
Defined.

(** A page with two blocks for one file, the first without a ['desc']:
    both blocks carry the same stream URL, the extraction yields one entry
    for it, and that entry is built from the second block, not from the
    first. *)
Lemma dedup_first_occurrence_counterexample :
  let u := "https://static.prsa.pl/a.mp3" in
  let entries :=
    yields (@_extract_webpage_player_entries Fake.site (VStr "first without desc") "2534482" ∅).1 in
  @findall_data_media Fake.site "first without desc" = ["m1"; "m2"] ∧
  @carries Fake.site "m1" u ∧
  @carries Fake.site "m2" u ∧
  (∃ e, entries = [e] ∧ e !! "id" = Some (VStr "2")) ∧
  ¬ (∃ e, @player_entry Fake.site ∅ (@parse_data_media Fake.site "m1") u = Ok e ∧
          List.filter (entry_url_is u) entries = [e]).
Proof.
  intros u entries. split; [reflexivity|]. split.
  { eexists _, _. repeat split; reflexivity. }
  split.
  { eexists _, _. repeat split; reflexivity. }
  split.
  { eexists. split; [reflexivity|]. by vm_compute. }
  intros (e & He & _). vm_compute in He. discriminate He.
Qed.

Lemma dedup_by_stream_url_witness :
  let u := "https://static.prsa.pl/a.mp3" in
  let run :=
    @_extract_webpage_player_entries Fake.site (VStr "same file twice") "2534482" ∅ in
  ∃ e, @player_entry Fake.site ∅ (@parse_data_media Fake.site "c1") u = Ok e ∧
       List.filter (entry_url_is u) (yields run.1) = [e].
Proof.
  intros u run.
  destruct (@dedup_by_stream_url Fake.site "same file twice" "2534482" ∅
              run.1 Returned)
    as [Hone _]; [reflexivity|].
  destruct (Hone "m2" u) as (before & first & after & Hsplit & _ & Hbefore & Hentry).
  { right. left. }
  { reflexivity. }
  change (@findall_data_media Fake.site "same file twice") with ["c1"; "m2"] in Hsplit.
  destruct Hentry as [(e & He & Hfilter)|[Hraised _]]; [|by destruct Hraised].
  destruct before as [|b0 before].
  - injection Hsplit as <- _. by exists e.
  - injection Hsplit as <- _. apply Forall_cons in Hbefore as [Hc1 _].
    exfalso. apply Hc1. reflexivity.
Defined.

(** An article whose audio attachment has no ['file']: the attachment is
    not dropped, the extraction raises. *)
Lemma audio_attachment_without_file_counterexample :
  @_search_nextjs_data Fake.site "audio without file"
  = Some (Fake.article_data [VDict [("fileType", VStr "Audio")]]) ∧
  @polskieradio_real_extract Fake.site Fake.ARTICLE_URL = Err (KeyError "file").
Proof. split; reflexivity. Qed.

Lemma incomplete_records_dropped_witness :
  let audio :=
    VDict [("fileType", VStr "Audio");
           ("file", VStr "https://static.prsa.pl/7a85d429-5356-4def-a347-925e4ae7406b.mp3")] in
  @_extract_webpage_player_entries Fake.site (VStr "first without desc") "2534482" ∅
  = @_extract_webpage_player_entries Fake.site (VStr "second only") "2534482" ∅ ∧
  @attachment_entries Fake.site (VStr "T") [VDict [("fileType", VStr "Video")]; audio]
  = @attachment_entries Fake.site (VStr "T") [audio] ∧
  @attachment_entries Fake.site (VStr "T") [audio; VDict [("fileType", VStr "Audio")]]
  = Err (KeyError "file").
Proof.
  intros audio.
  destruct (@incomplete_records_dropped Fake.site) as (Hblock & Hother & Hraise).
  split; [|split].
  - apply (Hblock _ _ _ _ [] "m1" ["m2"]); [reflexivity..|].
    eexists. split; [reflexivity|]. by right.
  - apply (Hother (VStr "T") [] (VDict [("fileType", VStr "Video")]) [audio]).
    eexists. split; reflexivity.
  - eapply (Hraise (VStr "T") [audio] (VDict [("fileType", VStr "Audio")]) []).
    + reflexivity.
    + eexists. repeat split; reflexivity.
Defined.




(** * Further properties *)

(** ** The matcher and the texts of a pattern *)

Lemma string_app_cons x (a b : string) : (String x a ++ b)%string = String x (a ++ b).
Proof. reflexivity. Qed.

Lemma string_app_assoc (a b c : string) : ((a ++ b) ++ c = a ++ (b ++ c))%string.
Proof.
  induction a as [|x a IH]; [done|]. rewrite !string_app_cons. by rewrite IH.
Qed.

Lemma string_app_nil_r (a : string) : (a ++ "")%string = a.
Proof. induction a as [|x a IH]; [done|]. rewrite string_app_cons. by rewrite IH. Qed.

Lemma string_app_length (a b : string) :
  String.length (a ++ b) = (String.length a + String.length b)%nat.
Proof.
  induction a as [|x a IH]; [done|]. rewrite string_app_cons. cbn. by rewrite IH.
Qed.

Lemma take_length_app (a b : string) : take (String.length a) (a ++ b) = a.
Proof.
  induction a as [|x a IH]; [by destruct b|]. rewrite string_app_cons. cbn. by rewrite IH.
Qed.

Lemma take_app (a b : string) :
  take (String.length (a ++ b) - String.length b) (a ++ b) = a.
Proof.
  rewrite string_app_length.
  replace (String.length a + String.length b - String.length b)%nat
    with (String.length a) by lia.
  apply take_length_app.
Qed.


Lemma star_then_sound {A} p s (k : string → option A) c :
  star_then p s k = Some c →
  ∃ pre rest, s = (pre ++ rest)%string ∧ all_chars p pre = true ∧ k rest = Some c.
Proof.
  induction s as [|x s IH]; cbn.
  - intros Hk. by exists "", "".
  - destruct (p x) eqn:Hx.
    + destruct (star_then p s k) as [c'|] eqn:Hs.
      * intros [= ->]. destruct (IH eq_refl) as (pre & rest & -> & Hpre & Hk).
        exists (String x pre), rest. cbn. by rewrite Hx.
      * intros Hk. by exists "", (String x s).
    + intros Hk. by exists "", (String x s).
Qed.

(** With a continuation that cannot fail the greedy loop keeps all it can
    take. *)
Lemma star_then_total {A} p s (k : string → option A) :
  (∀ rest, is_Some (k rest)) →
  star_then p s k = k (drop_while p s).
Proof.
  intros Hk. induction s as [|x s IH]; cbn; [done|].
  destruct (p x); [|done]. rewrite IH. by destruct (Hk (drop_while p s)) as [c ->].
Qed.

Lemma take_drop_while p s : (take_while p s ++ drop_while p s)%string = s.
Proof.
  induction s as [|x s IH]; cbn; [done|].
  destruct (p x); [|done]. rewrite string_app_cons. by rewrite IH.
Qed.

Lemma all_chars_take_while p s : all_chars p (take_while p s) = true.
Proof. induction s as [|x s IH]; cbn; [done|]. destruct (p x) eqn:Hx; cbn; [by rewrite Hx|done]. Qed.

Lemma starts_with_drop_while p s : starts_with p (drop_while p s) = false.
Proof. induction s as [|x s IH]; cbn; [done|]. destruct (p x) eqn:Hx; cbn; done. Qed.

(** The matcher is sound: a successful run has consumed a text of the
    pattern and handed the rest to its continuation. *)
Lemma exec_sound r :
  ∀ s caps k c,
    exec r s caps k = Some c →
    ∃ pre rest caps', s = (pre ++ rest)%string ∧ matches r pre ∧ k rest caps' = Some c.
Proof.
  induction r as [l|p|p|r1 IH1|r1 IH1 r2 IH2|name r1 IH1]; intros s caps k c; cbn [exec matches].
  - destruct (strip_prefix l s) as [rest|] eqn:E; [|done].
    apply strip_prefix_inv in E as ->. intros Hk. by exists l, rest, caps.
  - destruct s as [|x s]; [done|]. destruct (p x) eqn:Hx; [|done].
    intros Hk. exists (String x ""), s, caps. split; [done|]. split; [|done]. eauto.
  - destruct s as [|x s]; [done|]. destruct (p x) eqn:Hx; [|done].
    intros (pre & rest & -> & Hpre & Hk)%star_then_sound.
    exists (String x pre), rest, caps. split; [done|]. split; [|done].
    split; [done|]. cbn. by rewrite Hx.
  - destruct (exec r1 s caps k) as [c'|] eqn:H1.
    + intros [= ->]. destruct (IH1 _ _ _ _ H1) as (pre & rest & caps' & -> & Hpre & Hk).
      exists pre, rest, caps'. split; [done|]. split; [by right|done].
    + intros Hk. exists "", s, caps. split; [done|]. split; [by left|done].
  - intros (t1 & rest1 & caps1 & -> & Ht1 & H2)%IH1.
    apply IH2 in H2 as (t2 & rest & caps2 & -> & Ht2 & Hk).
    exists (t1 ++ t2)%string, rest, caps2. split; [by rewrite string_app_assoc|].
    split; [|done]. by exists t1, t2.
  - intros (pre & rest & caps' & -> & Hpre & Hk)%IH1.
    exists pre, rest, (<[name:=take (String.length (pre ++ rest) - String.length rest)
                                  (pre ++ rest)]> caps'). done.
Qed.


Lemma exec_seq_inv r1 r2 s caps k c :
  exec (Seq r1 r2) s caps k = Some c →
  ∃ pre rest caps', s = (pre ++ rest)%string ∧ matches r1 pre ∧
                    exec r2 rest caps' k = Some c.
Proof. cbn [exec]. apply exec_sound. Qed.

(** ** One handler for a URL *)












(** ** The resolution id *)

Lemma take_run p d (tail : string) :
  take (String.length (String d tail) - String.length (drop_while p tail)) (String d tail)
  = String d (take_while p tail).
Proof.
  rewrite <- (take_drop_while p tail) at 1 3.
  rewrite <- string_app_cons. apply take_app.
Qed.

(** A pattern that ends in [(?P<id>p+)], matched with nothing to follow:
    the id is the longest run of [p] characters at the place where the
    text before it ends. *)
Lemma exec_final_id p r :
  final_group r = Group "id" (Plus p) →
  ∀ s caps c,
    exec r s caps (λ _ caps, Some caps) = Some c →
    ∃ head d tail,
      s = (head ++ String d tail)%string ∧ p d = true ∧
      c !! "id" = Some (String d (take_while p tail)) ∧
      matches r (head ++ String d (take_while p tail)).
Proof.
  induction r as [l|q|q|r1 IH1|r1 IH1 r2 IH2|name r1 IH1]; cbn [final_group]; try done.
  - intros Hfinal s caps c.
    intros (pre & rest & caps' & -> & Hpre & Hr)%exec_seq_inv.
    apply (IH2 Hfinal) in Hr as (head & d & tail & -> & Hd & Hid & Hm).
    exists (pre ++ head)%string, d, tail.
    rewrite !string_app_assoc. split; [done|]. split; [done|]. split; [done|].
    cbn [matches]. eauto.
  - intros [= -> ->] s caps c. cbn [exec]. destruct s as [|d tail]; [done|].
    destruct (p d) eqn:Hd; [|done].
    rewrite star_then_total by eauto. intros [= <-].
    exists "", d, tail. split; [done|]. split; [done|].
    split; [|change ("" ++ ?x)%string with x; cbn; split; [done|];
             by rewrite Hd, all_chars_take_while].
    etrans; [apply (lookup_insert_eq (M:=gmap string))|]. f_equal. apply take_run.
Qed.



(** ** The category listing *)

Section CategoryListingProperties.
Context `{Framework}.

Lemma category_links_ok url links :
  Forall is_anchor links →
  category_links url links = (map Yield (omap (link_entry url) links), Returned).
Proof.
  induction 1 as [|[a id] links (d & Hd & Hhref) _ IH]; [done|].
  cbn [category_links omap list_omap]. unfold link_entry at 1. cbn [fst snd] in *.
  rewrite Hd. cbn [get]. destruct Hhref as [-> |[href ->]].
  - cbn. apply IH.
  - destruct (truthy (VStr href)) eqn:Ht; cbn [negb]; [|apply IH].
    rewrite IH. reflexivity.
Qed.

Lemma category_entries_reaches url pages :
  ∀ content last fuel,
    reaches url content pages last →
    Forall (λ c, Forall is_anchor (findall_article_links c)) (content :: map snd pages) →
    category_entries url (length pages + fuel) content
    = let '(evs, o) := category_entries url fuel last in
      (listing_trace url content pages ++ evs, o).
Proof.
  induction pages as [|[next content'] pages IH]; intros content last fuel Hreach Hanchors.
  - cbn in Hreach. subst last. cbn. by destruct (category_entries url fuel content).
  - destruct Hreach as (Hnext & Hget & Hreach).
    apply Forall_cons in Hanchors as [Hcontent Hanchors].
    cbn [length Nat.add category_entries listing_trace].
    rewrite (category_links_ok _ _ Hcontent), Hnext, Hget. cbn [and_then].
    rewrite (IH content' last fuel Hreach Hanchors).
    destruct (category_entries url fuel last) as [evs o]. unfold page_links.
    by rewrite <- app_assoc.
Qed.

Lemma category_entries_last url content fuel :
  Forall is_anchor (findall_article_links content) →
  search_next_link content = None →
  category_entries url (S fuel) content = (page_links url content, Returned).
Proof.
  intros Hanchors Hnext. cbn [category_entries].
  rewrite (category_links_ok _ _ Hanchors), Hnext. cbn. by rewrite app_nil_r.
Qed.

(** X3: [PolskieRadioCategoryIE._entries] on a listing of several pages.
    When the next links lead from the first document through [pages] to a
    document without a next link, the generator returns after yielding,
    page by page and in document order, one reference to the legacy
    handler for every link with a non-empty [href] (the others are
    skipped), and it requests each further page once, after the links of
    the page before it; the first document is not requested again. *)
Theorem category_follows_next_links (url webpage last : string)
    (pages : list (string * string)) (fuel : nat) :
  reaches url webpage pages last →
  search_next_link last = None →
  Forall (λ c, Forall is_anchor (findall_article_links c)) (webpage :: map snd pages) →
  (length pages < fuel)%nat →
  category_entries url fuel webpage
  = (listing_trace url webpage pages ++ page_links url last, Returned).
Proof.
  intros Hreach Hlast Hanchors Hfuel.
  replace fuel with (length pages + S (fuel - S (length pages)))%nat by lia.
  rewrite (category_entries_reaches _ _ _ _ _ Hreach Hanchors).
  rewrite category_entries_last; [done| |done].
  clear Hlast Hfuel. revert webpage Hreach Hanchors.
  induction pages as [|[next content'] pages IH]; intros webpage Hreach Hanchors.
  - cbn in Hreach. subst. by apply Forall_cons in Hanchors as [? _].
  - destruct Hreach as (_ & _ & Hreach). apply Forall_cons in Hanchors as [_ Hanchors].
    by apply (IH content').
Qed.

(** X4: when the download of a next page fails, the generator raises at
    that request: the entries of all documents up to the one with the
    dead link have been yielded before, and nothing is requested after
    the failure. *)
Theorem category_download_failure (url webpage last next : string)
    (pages : list (string * string)) (fuel : nat) :
  reaches url webpage pages last →
  search_next_link last = Some next →
  _download_webpage (urljoin url next) = None →
  Forall (λ c, Forall is_anchor (findall_article_links c)) (webpage :: map snd pages) →
  (length pages < fuel)%nat →
  category_entries url fuel webpage
  = (listing_trace url webpage pages ++ page_links url last
       ++ [Fetch (urljoin url next) []],
     Raised HelperError).
Proof.
  intros Hreach Hlast Hget Hanchors Hfuel.
  replace fuel with (length pages + S (fuel - S (length pages)))%nat by lia.
  rewrite (category_entries_reaches _ _ _ _ _ Hreach Hanchors).
  cbn [category_entries]. rewrite category_links_ok, Hlast, Hget; [done|].
  clear Hlast Hget Hfuel. revert webpage Hreach Hanchors.
  induction pages as [|[next' content'] pages IH]; intros webpage Hreach Hanchors.
  - cbn in Hreach. subst. by apply Forall_cons in Hanchors as [? _].
  - destruct Hreach as (_ & _ & Hreach). apply Forall_cons in Hanchors as [_ Hanchors].
    by apply (IH content').
Qed.

(** X5: the listing ends only at a document without a next link or at a
    failed download.  Where every document reached has a next link that
    downloads (a page that links to itself is enough), the generator
    never returns: whatever the number of rounds it is given, it is cut
    off after as many requests. *)
Theorem category_listing_needs_a_last_page (url webpage : string)
    (visited : string → Prop) (fuel : nat) :
  visited webpage →
  (∀ content, visited content →
     Forall is_anchor (findall_article_links content) ∧
     ∃ next content', search_next_link content = Some next ∧
                      _download_webpage (urljoin url next) = Some content' ∧
                      visited content') →
  ∃ evs,
    category_entries url fuel webpage = (evs, OutOfFuel) ∧
    length (fetches evs) = fuel.
Proof.
  intros Hstart Hstep. revert webpage Hstart.
  induction fuel as [|fuel IH]; intros webpage Hstart; [by exists []|].
  destruct (Hstep _ Hstart) as (Hanchors & next & content' & Hnext & Hget & Hvisited).
  destruct (IH _ Hvisited) as (evs & Hevs & Hlen).
  exists (page_links url webpage ++ Fetch (urljoin url next) [] :: evs).
  cbn [category_entries]. rewrite (category_links_ok _ _ Hanchors), Hnext, Hget, Hevs.
  split; [done|]. rewrite fetches_app. unfold page_links. rewrite fetches_map_Yield.
  cbn. by f_equal.
Qed.

End CategoryListingProperties.


Lemma category_follows_next_links_witness :
  @category_entries Listing.site Listing.BASE 2 "page 1"
  = ([Yield (url_result (Listing.BASE ++ "/8/1/Artykul/11")%string
               PolskieRadioLegacyIE "11" VNone);
      Fetch (Listing.BASE ++ "/2")%string [];
      Yield (url_result (Listing.BASE ++ "/8/1/Artykul/21")%string
               PolskieRadioLegacyIE "21" VNone)],
     Returned).
Proof.
  etrans; [apply (@category_follows_next_links Listing.site
                    Listing.BASE "page 1" "page 2" [("/2", "page 2")] 2)
          |reflexivity].
  - split; [reflexivity|split; reflexivity].
  - reflexivity.
  - repeat constructor; eexists; (split; [reflexivity|right; eexists; reflexivity]).
  - cbn. lia.
Defined.

Lemma category_download_failure_witness :
  @category_entries Listing.site Listing.BASE 1 "dead end"
  = ([Yield (url_result (Listing.BASE ++ "/8/1/Artykul/31")%string
               PolskieRadioLegacyIE "31" VNone);
      Fetch (Listing.BASE ++ "/missing")%string []],
     Raised HelperError).
Proof.
  etrans; [apply (@category_download_failure Listing.site
                    Listing.BASE "dead end" "dead end" "/missing" [] 1)
          |reflexivity].
  - reflexivity.
  - reflexivity.
  - reflexivity.
  - repeat constructor; eexists; (split; [reflexivity|right; eexists; reflexivity]).
  - cbn. lia.
Defined.

Lemma category_listing_needs_a_last_page_witness :
  ∃ evs,
    @category_entries Listing.site Listing.BASE 5 "loop" = (evs, OutOfFuel) ∧
    length (fetches evs) = 5%nat.
Proof.
  apply (@category_listing_needs_a_last_page Listing.site
           Listing.BASE "loop" (λ content, content = "loop") 5).
  - reflexivity.
  - intros content ->. split.
    + repeat constructor; eexists; (split; [reflexivity|right; eexists; reflexivity]).
    + exists "/loop", "loop". split; [reflexivity|split; reflexivity].
Defined.

(** ** Failures on the way *)

Section FailureProperties.
Context `{Framework}.

Lemma fails_after_tail path size pid i items pages :
  fails_after path size pid i (items :: pages) →
  fails_after path size pid (i + 1) pages.
Proof.
  intros [Hfull Hfail]. split.
  - intros k its Hk. destruct (Hfull (S k) its Hk) as (page & Hcall & Hpage).
    exists page. split; [|done]. rewrite <- Hcall. do 2 f_equal. lia.
  - rewrite <- Hfail. do 2 f_equal. cbn [length]. lia.
Qed.

Lemma lp3_pages_fails path size entry pid pages :
  ∀ ess fuel i,
    (length pages < fuel)%nat →
    fails_after path size pid i pages →
    Forall2 (Forall2 (λ x e, entry x = Ok e)) pages ess →
    lp3_pages path size entry pid fuel i
    = (stream_trace path size pid i ess, Raised HelperError).
Proof.
  induction pages as [|items pages IH]; intros ess fuel i Hfuel Hfails Hentries.
  - apply Forall2_nil_inv_l in Hentries as ->.
    destruct fuel as [|fuel]; [cbn in Hfuel; lia|].
    destruct Hfails as (_ & Hfail).
    cbn [length] in Hfail. rewrite Z.add_0_r in Hfail.
    cbn [lp3_pages stream_trace]. unfold _call_lp3. by rewrite Hfail.
  - apply Forall2_cons_inv_l in Hentries as (es & ess' & Hes & Hess & ->).
    destruct fuel as [|fuel]; [cbn in Hfuel; lia|].
    pose proof (fails_after_tail _ _ _ _ _ _ Hfails) as Htail.
    destruct Hfails as (Hfull & _).
    destruct (Hfull 0%nat items eq_refl) as (page & Hcall & Htruthy & Hdata).
    rewrite Z.add_0_r in Hcall.
    cbn [lp3_pages stream_trace]. rewrite Hcall, Htruthy, Hdata.
    cbn [negb bind iter]. rewrite (yield_each_ok _ _ _ Hes).
    cbn [and_then]. rewrite (IH ess' fuel (i + 1)); [done| |done|done].
    cbn [length] in Hfuel. lia.
Qed.

(** X6: a failed request in the episode stream of an audition.  When the
    API answers the requests for the pages 1 .. N and fails on the next
    one, the generator raises at that request, after having yielded the
    entries of the N pages in order; it has made N + 1 requests, none of
    them for the article stream, which is never started. *)
Theorem audition_request_failure (pid : string) (pages : list (list value))
    (has_articles : bool) (fuel : nat) :
  fails_after EPISODES 10 pid 1 pages →
  Forall (Forall (λ x, has_key x "id" ∧ has_key x "file")) pages →
  (length pages < fuel)%nat →
  let r := audition_entries pid true has_articles fuel in
  ∃ ess,
    Forall2 (Forall2 (λ x e, episode_entry x = Ok e)) pages ess ∧
    r = (stream_trace EPISODES 10 pid 1 ess, Raised HelperError) ∧
    yields r.1 = concat ess ∧
    length (fetches r.1) = S (length pages) ∧
    ∀ q, (lp3_url ARTICLES, q) ∉ fetches r.1.
Proof.
  intros Hfails Hitems Hfuel r. subst r.
  destruct (page_entries_exist episode_entry pages) as [ess Hentries].
  { eapply Forall_impl; [exact Hitems|]. intros items Hi.
    eapply Forall_impl; [exact Hi|]. intros x. apply episode_entry_ok. }
  exists ess. split; [done|]. unfold audition_entries.
  rewrite (lp3_pages_fails _ _ _ _ _ _ _ _ Hfuel Hfails Hentries).
  cbn [and_then fst]. split; [done|].
  rewrite yields_stream_trace, fetches_stream_trace. split; [done|].
  rewrite length_map, length_seq. rewrite (Forall2_length _ _ _ Hentries). split; [done|].
  intros q (k & Heq & _)%list_elem_of_fmap. discriminate Heq.
Qed.

Lemma undecodable_block base b after :
  _parse_json (unescapeHTML b) = None →
  ∀ before seen evs,
    player_loop base before seen = (evs, Returned) →
    player_loop base (before ++ b :: after) seen = (evs, Raised AttributeError).
Proof.
  intros Hb. induction before as [|x before IH]; intros seen evs.
  - cbn [player_loop app]. intros [= <-].
    unfold player_step, parse_data_media. by rewrite Hb.
  - cbn [player_loop app].
    destruct (player_step base seen x) as [[[entry|] seen']|e]; [| |done].
    + destruct (player_loop base before seen') as [evs' o] eqn:Hrest.
      intros [= <- ->]. by rewrite (IH seen' evs' Hrest).
    + apply IH.
Qed.

(** X7: a [data-media] block that does not decode aborts the listing.
    [_parse_json] is called with [fatal=False] and returns [None] for
    such a block; the [media.get] that follows raises, so the entries of
    the blocks before it are the last ones yielded and the blocks after
    it are never looked at. *)
Theorem undecodable_block_aborts (webpage pid b : string) (before after : list string)
    (base : gmap string value) (evs : list event) :
  findall_data_media webpage = before ++ b :: after →
  _parse_json (unescapeHTML b) = None →
  player_loop base before ∅ = (evs, Returned) →
  _extract_webpage_player_entries (VStr webpage) pid base
  = (evs, Raised AttributeError).
Proof.
  intros Hblocks Hb Hbefore. unfold _extract_webpage_player_entries.
  rewrite Hblocks. by apply undecodable_block.
Qed.

End FailureProperties.


Lemma audition_request_failure_witness :
  let r := @audition_entries Outage.site "8906" true true 2 in
  r.2 = Raised HelperError ∧ length (yields r.1) = 2%nat ∧
  length (fetches r.1) = 2%nat ∧
  ∀ q, (lp3_url ARTICLES, q) ∉ fetches r.1.
Proof.
  intros r.
  destruct (@audition_request_failure Outage.site "8906"
              [[Fake.item 1; Fake.item 2]] true 2)
    as (ess & Hentries & Hrun & Hyields & Hfetches & Hnone).
  - split; [|reflexivity].
    intros [|[|k]] items Hk; [|discriminate Hk..].
    injection Hk as <-. eexists. split; [reflexivity|]. split; reflexivity.
  - repeat constructor; eexists _, _; split; reflexivity.
  - cbn. lia.
  - fold r in Hrun, Hyields, Hfetches, Hnone.
    split; [by rewrite Hrun|]. split; [|split; [exact Hfetches|exact Hnone]].
    rewrite Hyields.
    refine (length_page_entries _ 2 [[Fake.item 1; Fake.item 2]] ess _ Hentries).
    repeat constructor.
Defined.

Lemma undecodable_block_aborts_witness :
  @_extract_webpage_player_entries Outage.site (VStr "page") "1" ∅
  = ([Yield {[ "id" := VStr "1"; "url" := VStr "https://static.prsa.pl/a.mp3";
               "duration" := VNone; "vcodec" := VNone; "title" := VStr "first" ]}],
     Raised AttributeError).
Proof.
  etrans; [apply (@undecodable_block_aborts Outage.site "page" "1" "not json"
                    ["c1"] ["m2"] ∅)
          |reflexivity]; reflexivity.
Defined.

(** ** The live player *)

Section PlayerProperties.
Context `{Framework}.

Lemma stream_formats_plain (urls : list string) :
  Forall (λ u, plain (_proto_relative_url u) = true) urls →
  stream_formats (map VStr urls)
  = Ok (map (λ u, VDict [("url", VStr (_proto_relative_url u))]) urls).
Proof.
  induction 1 as [|u urls Hu _ IH]; [done|].
  cbn [map stream_formats proto_relative bind]. rewrite IH.
  unfold plain in Hu.
  destruct (endswith _ "/playlist.m3u8"); [done|].
  destruct (endswith _ "/manifest.f4m"); [done|].
  destruct (endswith _ "/Manifest"); [done|]. done.
Qed.

(** X8: the record of a live channel.  The first channel of the list
    whose ['url'] is the requested id and the first station whose ['Name']
    is the channel's [streamName]-or-[name] are the ones used.  With
    streams that are plain URLs (no manifest), the record has one format
    per stream, in the station's order, with the URL normalised; its id
    is the channel's ['id'] as a string, its title the channel's
    [name]-or-[streamName], its display id the id of the URL, and it is
    marked live. *)
Theorem player_record (url channel_url : string) (d : list (string * value))
    (before after sbefore safter : list value) (station id : value)
    (urls : list string) :
  _match_id PolskieRadioPlayerIE url = Ok channel_url →
  _get_channel_list = Ok (VList (before ++ VDict d :: after)) →
  Forall (λ c, is_channel channel_url c = Ok false) before →
  is_channel channel_url (VDict d) = Ok true →
  _download_json _STATIONS_API_URL [] = Some (VList (sbefore ++ station :: safter)) →
  Forall (λ s, is_station (VDict d) s = Ok false) sbefore →
  is_station (VDict d) station = Ok true →
  subscript station "Streams" = Ok (VList (map VStr urls)) →
  Forall (λ u, plain (_proto_relative_url u) = true) urls →
  assoc "id" d = Some id →
  player_real_extract url
  = Ok (MediaRecord
          {[ "id" := VStr (compat_str id);
             "formats" :=
               VList (map (λ u, VDict [("url", VStr (_proto_relative_url u))]) urls);
             "title" := py_or (dict_get d "name") (dict_get d "streamName");
             "display_id" := VStr channel_url;
             "thumbnail" :=
               VStr (_BASE_URL ++ "/images/" ++ channel_url ++ "-color-logo.png")%string;
             "is_live" := VBool true ]}).
Proof.
  intros Hid Hlist Hbefore Hchannel Hstations Hsbefore Hstation Hstreams Hplain Hd.
  unfold player_real_extract. rewrite Hid. cbn [bind]. unfold player_extract.
  rewrite Hlist. cbn [bind iter].
  rewrite (next_where_first _ _ _ _ Hbefore Hchannel). cbn [bind].
  rewrite (is_channel_truthy _ _ Hchannel). cbn [negb].
  rewrite Hstations. cbn [helper bind iter].
  rewrite (next_where_first _ _ _ _ Hsbefore Hstation). cbn [bind].
  assert (truthy station = true) as ->.
  { apply (has_key_truthy _ "Streams"). unfold has_key.
    destruct station as [| | | | |ds]; try done. cbn [subscript] in Hstreams.
    destruct (assoc "Streams" ds) as [x|] eqn:Hx; [|done]. eauto. }
  cbn [negb]. rewrite Hstreams. cbn [bind iter].
  rewrite (stream_formats_plain _ Hplain). cbn [bind subscript get]. rewrite Hd.
  reflexivity.
Qed.

End PlayerProperties.

Lemma player_record_witness :
  @player_real_extract Fake.site Fake.PLAYER_PAGE
  = Ok (MediaRecord
          {[ "id" := VStr "3";
             "formats" := VList [VDict [("url", VStr "https://stream.polskieradio.pl/pr3")]];
             "title" := VStr "Trojka";
             "display_id" := VStr "trojka";
             "thumbnail" :=
               VStr "https://player.polskieradio.pl/images/trojka-color-logo.png";
             "is_live" := VBool true ]}).
Proof.
  etrans;
    [apply (@player_record Fake.site Fake.PLAYER_PAGE "trojka"
              [("url", VStr "trojka"); ("id", VInt 3); ("name", VStr "Trojka")]
              [Fake.channel "jedynka" 1 "Jedynka"] [] [] []
              (VDict [("Name", VStr "Trojka");
                      ("Streams", VList [VStr "//stream.polskieradio.pl/pr3"])])
              (VInt 3) ["//stream.polskieradio.pl/pr3"])
    |reflexivity].
  - reflexivity.
  - reflexivity.
  - repeat constructor.
  - reflexivity.
  - reflexivity.
  - constructor.
  - reflexivity.
  - reflexivity.
  - repeat constructor.
  - reflexivity.
Defined.

(** ** Engadget *)

(** X9: [EngadgetIE] refers every URL it accepts to the AOL extractor
    under ["aol-video:"] followed by the id of the URL, and the id is the
    longest run of characters other than [/], [?] and [#] after
    [/video/]: a trailing slash, a query string or a fragment never
    reaches the reference. *)
Theorem engadget_refers_to_aol (url : string) (r : gmap string value) :
  EngadgetIE._real_extract url = Ok r →
  ∃ head id tail,
    url = (head ++ id ++ tail)%string ∧
    matches EngadgetIE._VALID_URL (head ++ id) ∧
    id ≠ "" ∧ all_chars EngadgetIE.id_char id = true ∧
    starts_with EngadgetIE.id_char tail = false ∧
    r = EngadgetIE.url_result ("aol-video:" ++ id)%string.
Proof.
  unfold EngadgetIE._real_extract, EngadgetIE._match_id, re_match.
  destruct (exec _ _ _ _) as [c|] eqn:Hc; [|done].
  apply (exec_final_id EngadgetIE.id_char) in Hc
    as (head & d & tail & -> & Hd & -> & Hm); [|done].
  cbn [bind]. intros [= <-].
  exists head, (String d (take_while EngadgetIE.id_char tail)),
    (drop_while EngadgetIE.id_char tail).
  split; [by rewrite string_app_cons, take_drop_while|].
  split; [done|]. split; [done|].
  split; [cbn; by rewrite Hd, all_chars_take_while|].
  split; [apply starts_with_drop_while|done].
Qed.

Lemma engadget_refers_to_aol_witness :
  ∃ head id tail,
    "https://www.engadget.com/video/57a28462134aa15a39f0421a/"
    = (head ++ id ++ tail)%string ∧
    matches EngadgetIE._VALID_URL (head ++ id) ∧
    id ≠ "" ∧ all_chars EngadgetIE.id_char id = true ∧
    starts_with EngadgetIE.id_char tail = false ∧
    EngadgetIE.url_result "aol-video:57a28462134aa15a39f0421a"
    = EngadgetIE.url_result ("aol-video:" ++ id)%string.
Proof.
  apply (engadget_refers_to_aol
           "https://www.engadget.com/video/57a28462134aa15a39f0421a/"
           (EngadgetIE.url_result "aol-video:57a28462134aa15a39f0421a")).
  reflexivity.
Defined.

(** ** The id of a result *)

Section ResultIdProperties.
Context `{Framework}.

Ltac walk :=
  repeat match goal with
         | |- Ok _ = Ok _ → _ => intros [= <-]
         | |- Err _ = Ok _ → _ => intros [=]
         | |- context [bind ?x _] =>
             let E := fresh "E" in destruct x eqn:E; cbn [bind]
         | |- context [let '(_, _) := ?x in _] => destruct x
         | |- context [if ?b then _ else _] => destruct b
         | |- context [match ?x with _ => _ end] =>
             let E := fresh "E" in destruct x eqn:E
         end.

(** X10: the legacy article, the article, the audition, the category and
    the Radio Kierowcow handlers name what they return after the URL:
    whatever the documents hold, a redirect carries the id of the URL as
    its [video_id], a record as its ['id'] and a playlist as its playlist
    id.  (The live player, the podcast list and the podcast track take
    the id from the API's answer instead.) *)
Theorem result_keeps_url_id (h : handler) (url : string) (r : ie_result) :
  h ∈ [PolskieRadioLegacyIE; PolskieRadioIE; PolskieRadioAuditionIE;
       PolskieRadioCategoryIE; PolskieRadioRadioKierowcowIE] →
  _real_extract h url = Ok r →
  ∃ id, _match_id h url = Ok id ∧ result_id r = Some (VStr id).
Proof.
  intros Hin.
  repeat (apply elem_of_cons in Hin as [-> |Hin]); try (by apply elem_of_nil in Hin);
    cbn [_real_extract];
    unfold legacy_real_extract, polskieradio_real_extract, audition_real_extract,
           category_real_extract, radiokierowcow_real_extract;
    (destruct (_match_id _ url) as [id|e]; cbn [bind]; [|done]);
    walk; try done; eexists; (split; [reflexivity|]); try reflexivity.
Qed.

End ResultIdProperties.

Lemma result_keeps_url_id_witness :
  ∃ id, _match_id PolskieRadioLegacyIE Fake.LEGACY_URL = Ok id ∧
        result_id (RedirectToHandler Fake.MODERN_URL PolskieRadioIE "2534482")
        = Some (VStr id).
Proof.
  apply (@result_keeps_url_id Fake.site PolskieRadioLegacyIE Fake.LEGACY_URL).
  - left.
  - reflexivity.
Defined.

(** ** Edges of the article and of the podcast list *)

Section EdgeProperties.
Context `{Framework}.



(** X12: an article page at its edges.  When the page's data has no
    [articleData] the handler fails with [TypeError], when the article
    has no ['title'] with [KeyError]; an article whose ['attachments'] are
    missing, [None] or empty is not an error: the result is a playlist
    without entries that carries the id of the URL, the title and the
    lead. *)
Theorem article_without_attachments (url pid webpage : string) (nextjs : value) :
  _match_id PolskieRadioIE url = Ok pid →
  _download_webpage url = Some webpage →
  _search_nextjs_data webpage = Some nextjs →
  let article_data :=
    traverse_obj nextjs [[K "props"; K "pageProps"; K "data"; K "articleData"]] true in
  (article_data = VNone → polskieradio_real_extract url = Err TypeError) ∧
  (∀ d, article_data = VDict d → assoc "title" d = None →
        polskieradio_real_extract url = Err (KeyError "title")) ∧
  (∀ d title, article_data = VDict d → assoc "title" d = Some title →
              truthy (dict_get d "attachments") = false →
              ∃ p, polskieradio_real_extract url = Ok (PlaylistResult p) ∧
                   pl_id p = VStr pid ∧ pl_title p = strip_or_none title ∧
                   pl_description p = strip_or_none (dict_get d "lead") ∧
                   ∀ fuel, pl_entries p fuel = ([], Returned)).
Proof.
  intros Hid Hpage Hnext article_data. unfold polskieradio_real_extract.
  rewrite Hid. cbn [bind]. rewrite Hpage. cbn [helper bind]. rewrite Hnext.
  cbn [helper bind]. fold article_data. split; [|split].
  - by intros ->.
  - intros d -> Htitle. cbn [subscript]. by rewrite Htitle.
  - intros d title -> Htitle Hatt. cbn [subscript]. rewrite Htitle.
    cbn [bind get]. unfold py_or. rewrite Hatt. cbn [iter bind attachment_entries].
    eexists. split; [reflexivity|]. done.
Qed.

End EdgeProperties.



Lemma article_without_attachments_witness :
  ∃ p, @polskieradio_real_extract Bare.site Fake.ARTICLE_URL = Ok (PlaylistResult p) ∧
       pl_id p = VStr "1587943" ∧ pl_title p = VStr "T" ∧ pl_description p = VStr "L" ∧
       ∀ fuel, pl_entries p fuel = ([], Returned).
Proof.
  destruct (@article_without_attachments Bare.site Fake.ARTICLE_URL "1587943"
              "bare article" (default VNone (Fake.table Bare.documents "bare article")))
    as (_ & _ & Hempty); [reflexivity..|].
  apply (Hempty [("title", VStr "T"); ("lead", VStr "L")] (VStr "T")); reflexivity.
Defined.

(** ** The transcription server *)

Section ServerProperties.
Import Flask.
Context `{Libraries}.

(** X13: an upload to [result_1] of [src/server.py] comes back
    transcribed.  For a file with a name, the page rendered shows the
    transcription of the uploaded content, whatever was on the disk
    before, and the working file [./input/CHATGPT_.mp4] is gone
    afterwards; no other file is touched. *)
Theorem upload_is_transcribed_and_removed (file : upload) (d : disk) (text : string) :
  filename file ≠ "" →
  transcribe (body file) = Some text →
  Server.result_1 (Some file) d
  = (Render "./result.html" "結果" text, delete Server.INPUT d).
Proof.
  intros Hname Htext. unfold Server.result_1.
  destruct (String.eqb_spec (filename file) ""); [done|]. cbn [negb].
  unfold model_transcribe, os_remove, save.
  rewrite lookup_insert_eq, Htext. by rewrite delete_insert_eq.
Qed.

(** X14: [result_1] of [src/WHISPER/server.py] never transcribes the
    upload.  The file is saved as [CHATGPT_.mp3] while the transcription
    reads [CHATGPT_.mp4]: without such a file the request fails inside
    Whisper and the upload stays on the disk; with one, the page shows
    the text of that older file, the upload is removed and the older file
    stays, so the next upload is answered with the same text. *)
Theorem whisper_upload_is_not_transcribed (file : upload) (d : disk) :
  filename file ≠ "" →
  (d !! "CHATGPT_.mp4" = None →
   Whisper.result_1 (Some file) d
   = (ServerError LibraryError, <["CHATGPT_.mp3" := body file]> d)) ∧
  (∀ old text,
     d !! "CHATGPT_.mp4" = Some old →
     transcribe old = Some text →
     Whisper.result_1 (Some file) d
     = (Render "./result.html" "結果" text, delete "CHATGPT_.mp3" d) ∧
     ∀ file', filename file' ≠ "" →
       Whisper.result_1 (Some file') (delete "CHATGPT_.mp3" d)
       = (Render "./result.html" "結果" text, delete "CHATGPT_.mp3" d)).
Proof.
  intros Hname.
  assert (∀ (f : upload) (d0 : disk) old text,
            filename f ≠ "" →
            d0 !! "CHATGPT_.mp4" = Some old →
            transcribe old = Some text →
            Whisper.result_1 (Some f) d0
            = (Render "./result.html" "結果" text, delete "CHATGPT_.mp3" d0)) as Hold.
  { intros f d0 old text Hf Hold Htext. unfold Whisper.result_1.
    destruct (String.eqb_spec (filename f) ""); [done|]. cbn [negb].
    unfold model_transcribe, os_remove, save.
    rewrite lookup_insert_ne, Hold, Htext by done.
    by rewrite lookup_insert_eq, delete_insert_eq. }
  split.
  - intros Hnone. unfold Whisper.result_1.
    destruct (String.eqb_spec (filename file) ""); [done|]. cbn [negb].
    unfold model_transcribe, save. by rewrite lookup_insert_ne, Hnone.
  - intros old text Hd Htext. split; [by apply (Hold file d old text)|].
    intros file' Hname'.
    rewrite (Hold file' (delete "CHATGPT_.mp3" d) old text Hname'); [|by rewrite lookup_delete_ne|done].
    f_equal. apply map_eq. intros k.
    destruct (decide (k = "CHATGPT_.mp3")) as [-> |Hk].
    + by rewrite !lookup_delete_eq.
    + by rewrite !lookup_delete_ne.
Qed.

(** X15: what [result_2] of [src/server.py] leaves behind.  A redirect
    goes to the index and leaves the disk as it was; a rendered page
    leaves no working file [./input/CHATGPT_.mp4], whatever the download
    libraries did.  A URL that contains neither [youtu.be] nor
    [vimeo.com] (a [youtube.com] address, say) is always answered with
    the redirect. *)
Theorem result_2_leaves_no_working_file (url : option string) (d : disk) :
  match Server.result_2 url d with
  | (Redirect location, d') => location = "/" ∧ d' = d
  | (Render _ _ _, d') => d' !! Server.INPUT = None
  | (BadRequest, d') => url = None ∧ d' = d
  | (ServerError _, _) => True
  end ∧
  (∀ u, url = Some u → u ≠ "" →
        contains "youtu.be" u = false → contains "vimeo.com" u = false →
        Server.result_2 url d = (Redirect "/", d)).
Proof.
  split.
  - unfold Server.result_2.
    assert (∀ d0, match (match model_transcribe "./input/CHATGPT_.mp4" d0 with
                         | inl e => (ServerError e, d0)
                         | inr text =>
                             match os_remove "./input/CHATGPT_.mp4" d0 with
                             | inl e => (ServerError e, d0)
                             | inr d1 => (Render "./result.html" "結果" text, d1)
                             end
                         end) with
                  | (Redirect location, d') => location = "/" ∧ d' = d
                  | (Render _ _ _, d') => d' !! Server.INPUT = None
                  | (BadRequest, d') => Some "" = None ∧ d' = d
                  | (ServerError _, _) => True
                  end) as Hrun.
    { intros d0. destruct (model_transcribe _ d0); [done|].
      unfold os_remove. destruct (d0 !! _); [|done]. apply lookup_delete_eq. }
    destruct url as [url|]; [|done].
    destruct (negb _).
    + destruct (contains "youtu.be" url).
      * destruct (ydl_download _ _ _) as [[] d0]; [|done].
        specialize (Hrun d0). by destruct (model_transcribe _ _); [|destruct (os_remove _ _)].
      * destruct (contains "vimeo.com" url); [|done].
        destruct (vimeo_streams url) as [s|]; [|done].
        destruct (last s); [|done].
        destruct (stream_download _ _ _ _) as [[] d0]; [|done].
        specialize (Hrun d0). by destruct (model_transcribe _ _); [|destruct (os_remove _ _)].
    + specialize (Hrun d). by destruct (model_transcribe _ _); [|destruct (os_remove _ _)].
  - intros u -> Hu Hyt Hvimeo. unfold Server.result_2.
    destruct (String.eqb_spec u ""); [done|]. cbn [negb]. by rewrite Hyt, Hvimeo.
Qed.

(** X16: [result_2] of [src/WHISPER/server.py] on a [youtu.be] address.
    The download is told to write [CHATGPT_.mp3] and the transcription
    reads [CHATGPT_.mp4]: when the download leaves that file as it was,
    the audio downloaded is never what is transcribed.  Without an older
    [CHATGPT_.mp4] the request fails after the download; with one, the
    page shows the text of the older file, which is then removed. *)
Theorem whisper_download_is_not_transcribed (url : string) (d d' : disk) :
  contains "youtu.be" url = true →
  ydl_download "CHATGPT_.mp3" url d = (true, d') →
  d' !! "CHATGPT_.mp4" = d !! "CHATGPT_.mp4" →
  (d !! "CHATGPT_.mp4" = None →
   Whisper.result_2 (Some url) d = (ServerError LibraryError, d')) ∧
  (∀ old text,
     d !! "CHATGPT_.mp4" = Some old →
     transcribe old = Some text →
     Whisper.result_2 (Some url) d
     = (Render "./result.html" "結果" text, delete "CHATGPT_.mp4" d')).
Proof.
  intros Hyt Hdl Hkept. unfold Whisper.result_2.
  assert (url ≠ "") as Hurl by (by intros ->).
  destruct (String.eqb_spec url ""); [done|]. cbn [negb].
  rewrite Hyt, Hdl. unfold model_transcribe, os_remove. rewrite Hkept. split.
  - by intros ->.
  - intros old text -> ->. done.
Qed.

End ServerProperties.

Lemma upload_is_transcribed_and_removed_witness :
  @Flask.Server.result_1 Flask.echo
    (Some {| Flask.filename := "talk.mp3"; Flask.body := "speech" |})
    {[ "./input/CHATGPT_.mp4" := "an older file" ]}
  = (Flask.Render "./result.html" "結果" "text of speech",
     delete Flask.Server.INPUT {[ "./input/CHATGPT_.mp4" := "an older file" ]}).
Proof.
  apply (@upload_is_transcribed_and_removed Flask.echo
           {| Flask.filename := "talk.mp3"; Flask.body := "speech" |}).
  - discriminate.
  - reflexivity.
Defined.

Lemma whisper_upload_is_not_transcribed_witness :
  @Flask.Whisper.result_1 Flask.echo
    (Some {| Flask.filename := "talk.mp3"; Flask.body := "speech" |})
    {[ "CHATGPT_.mp4" := "an older file" ]}
  = (Flask.Render "./result.html" "結果" "text of an older file",
     delete "CHATGPT_.mp3" {[ "CHATGPT_.mp4" := "an older file" ]}).
Proof.
  destruct (@whisper_upload_is_not_transcribed Flask.echo
              {| Flask.filename := "talk.mp3"; Flask.body := "speech" |}
              {[ "CHATGPT_.mp4" := "an older file" ]}) as [_ Hold].
  - discriminate.
  - destruct (Hold "an older file" "text of an older file") as [Hfirst _];
      [reflexivity..|exact Hfirst].
Defined.

Lemma result_2_leaves_no_working_file_witness :
  @Flask.Server.result_2 Flask.echo (Some "https://www.youtube.com/watch?v=abc")
    {[ "notes.txt" := "kept" ]}
  = (Flask.Redirect "/", {[ "notes.txt" := "kept" ]}).
Proof.
  destruct (@result_2_leaves_no_working_file Flask.echo
              (Some "https://www.youtube.com/watch?v=abc") {[ "notes.txt" := "kept" ]})
    as [_ Hother].
  apply (Hother "https://www.youtube.com/watch?v=abc"); [reflexivity|discriminate|reflexivity..].
Defined.

Lemma whisper_download_is_not_transcribed_witness :
  @Flask.Whisper.result_2 Flask.echo (Some "https://youtu.be/abc")
    {[ "CHATGPT_.mp4" := "an older file" ]}
  = (Flask.Render "./result.html" "結果" "text of an older file",
     delete "CHATGPT_.mp4"
       (<["CHATGPT_.mp3" := "https://youtu.be/abc"]>
          {[ "CHATGPT_.mp4" := "an older file" ]})).
Proof.
  destruct (@whisper_download_is_not_transcribed Flask.echo "https://youtu.be/abc"
              {[ "CHATGPT_.mp4" := "an older file" ]}
              (<["CHATGPT_.mp3" := "https://youtu.be/abc"]>
                 {[ "CHATGPT_.mp4" := "an older file" ]})) as [_ Hold];
    [reflexivity..|].
  apply (Hold "an older file" "text of an older file"); reflexivity.
Defined.

(** ** The podcast track *)



Section TrackProperties.
Context `{Framework}.

End TrackProperties.


